(** * msg2eml: a shallow embedding of [msg2eml.py]

    The program converts Outlook MSG files to EML.  It has three functions:
    [convert_msg_to_eml] (one file), [convert_directory] (a batch over a
    directory) and [main] (the command line).  Everything it does is an
    interaction with the file system, with the decoder library
    ([extract_msg]) and with the two output streams, so the embedding is a
    state-and-exception monad over a small world: a directory tree, the set
    of decoder handles that are open, and the lines printed so far.

    What is outside the repository is modelled as follows.
    - [pathlib]: a path is the list of its components, relative to the
      working directory of the process, which is the root of the modelled
      tree.  [suffix], [with_suffix], [relative_to], [parent], [glob],
      [mkdir] follow the CPython implementation (3.8 to 3.13).  The
      components are taken as they are written: [..], links, the root of
      an absolute path and the letter case of a name are not resolved, so
      one file may have several spellings; what is stated about the files
      a call leaves alone is therefore stated on their names.
    - the operating system: the directory tree decides the outcome of every
      call; on top of it an oracle [os_fault] may make a call fail for a
      reason the tree does not show (permissions, a full disk), and a write
      that fails may have put part of the data into the file before
      ([os_partial]).
    - the command line: [main] is modelled from line 147 on, on the record
      [parse_args] has returned; the endings [argparse] produces itself
      (status 2 on a malformed command line, 0 on [-h]) come before.
    - [extract_msg]: an oracle that, given the path and what is stored
      there, either raises or returns a message object.
    - [print] never raises. *)

From Stdlib Require Import List String Ascii Bool Arith Lia.
Import ListNotations.
Local Open Scope string_scope.
Local Open Scope list_scope.
Local Open Scope nat_scope.



(** ** Python strings *)

Module PyStr.

(** [str.lower], on the ASCII range. *)
Definition lower_ascii (c : ascii) : ascii :=
  let n := nat_of_ascii c in
  if (65 <=? n) && (n <=? 90) then ascii_of_nat (n + 32) else c.

Fixpoint lower (s : string) : string :=
  match s with
  | EmptyString => EmptyString
  | String c s' => String (lower_ascii c) (lower s')
  end.

(** [s.rfind('.')]: the index of the last dot, if there is one. *)
Fixpoint rfind_dot (s : string) : option nat :=
  match s with
  | EmptyString => None
  | String c s' =>
      match rfind_dot s' with
      | Some i => Some (S i)
      | None => if Ascii.eqb c "." then Some 0 else None
      end
  end.

(** [s[i:]] and [s[:i]]. *)
Fixpoint drop (i : nat) (s : string) : string :=
  match i, s with
  | 0, _ => s
  | S i', String _ s' => drop i' s'
  | S _, EmptyString => EmptyString
  end.

Fixpoint take (i : nat) (s : string) : string :=
  match i, s with
  | 0, _ => EmptyString
  | S i', String c s' => String c (take i' s')
  | S _, EmptyString => EmptyString
  end.

(** [s.endswith(t)]. *)
Definition endswith (s t : string) : bool :=
  (String.length t <=? String.length s) &&
  String.eqb (drop (String.length s - String.length t) s) t.

(** Truth value of a string: the empty string is false. *)
Definition truthy (s : string) : bool :=
  match s with EmptyString => false | _ => true end.

(** Truth value of an optional string ([None] is false as well). *)
Definition truthy_opt (o : option string) : bool :=
  match o with Some s => truthy s | None => false end.

(** [s.split('/')]. *)
Fixpoint split_slash (s : string) : list string :=
  match s with
  | EmptyString => [EmptyString]
  | String c s' =>
      if Ascii.eqb c "/" then EmptyString :: split_slash s'
      else match split_slash s' with
           | [] => [String c EmptyString]
           | w :: ws => String c w :: ws
           end
  end.

End PyStr.

(** ** pathlib *)

Module Pathlib.

(** A path: its components.  [[]] is [Path('.')]. *)
Definition path := list string.

(** [Path(s)]: split at the separators; empty components and [.] drop
    out. *)
Definition Path (s : string) : path :=
  filter (fun c => negb (String.eqb c "" || String.eqb c "."))
         (PyStr.split_slash s).

(** [p.name]: the last component, or [''] when there is none. *)
Definition name (p : path) : string := last p "".

(** [p.parent]; the parent of [Path('.')] is itself. *)
Definition parent (p : path) : path := removelast p.

(** [a / b] for a relative [b]. *)
Definition joinpath (a b : path) : path := a ++ b.

(** [PurePath.suffix] on a name:
    [i = name.rfind('.'); name[i:] if 0 < i < len(name) - 1 else '']. *)
Definition suffix_of (nm : string) : string :=
  match PyStr.rfind_dot nm with
  | Some i =>
      if (0 <? i) && (i <? String.length nm - 1) then PyStr.drop i nm
      else ""
  | None => ""
  end.

Definition suffix (p : path) : string := suffix_of (name p).

(** The new name [with_suffix] computes:
    [name + suffix] when there is no old suffix, else
    [name[:-len(old_suffix)] + suffix]. *)
Definition with_suffix_name (nm new : string) : string :=
  let old := suffix_of nm in
  if String.eqb old "" then (nm ++ new)%string
  else (PyStr.take (String.length nm - String.length old) nm ++ new)%string.

(** [PurePath.with_suffix]: [None] stands for the [ValueError] raised on
    an empty name.  (The checks on the new suffix itself pass for
    ['.eml'], the only one the program uses.) *)
Definition with_suffix (p : path) (new : string) : option path :=
  if String.eqb (name p) "" then None
  else Some (removelast p ++ [with_suffix_name (name p) new]).

(** [p.relative_to(base)]: [None] stands for the [ValueError] raised
    when [base] is not a prefix of [p]. *)
Fixpoint relative_to (p base : path) {struct base} : option path :=
  match base, p with
  | [], _ => Some p
  | b :: base', c :: p' =>
      if String.eqb b c then relative_to p' base' else None
  | _ :: _, [] => None
  end.

(** The casing rules [glob] uses are those of the platform. *)
Inductive flavour := Posix | Windows.

(** Does a name match the pattern [*.msg]? *)
Definition match_msg (fl : flavour) (nm : string) : bool :=
  match fl with
  | Posix => PyStr.endswith nm ".msg"
  | Windows => PyStr.endswith (PyStr.lower nm) ".msg"
  end.

End Pathlib.
Import Pathlib.

(** ** Exceptions *)

(** The exceptions that can occur.  [except Exception] catches every one
    of them but [KeyboardInterrupt] and [SystemExit], which derive from
    [BaseException] only.  [LibraryError] is whatever subclass of
    [Exception] the decoder library raises. *)
Inductive exn :=
| FileNotFoundError
| FileExistsError
| NotADirectoryError
| IsADirectoryError
| PermissionError
| OSError
| ValueError
| LibraryError (what : string)
| KeyboardInterrupt
| SystemExit (code : nat).

(** [isinstance(e, Exception)]. *)
Definition is_Exception (e : exn) : bool :=
  match e with
  | KeyboardInterrupt | SystemExit _ => false
  | _ => true
  end.

(** ** The file system *)

Definition bytes := list Init.Byte.byte.

(** A directory tree; a directory lists its entries in the order in which
    the system enumerates them. *)
#[warnings="-register-all"]
Inductive node :=
| File (data : bytes)
| Dir (entries : list (string * node)).

Module FS.

Fixpoint assoc (nm : string) (es : list (string * node)) : option node :=
  match es with
  | [] => None
  | (k, v) :: es' => if String.eqb k nm then Some v else assoc nm es'
  end.

(** Replace the entry called [nm], or add it at the end. *)
Fixpoint set_entry (nm : string) (v : node) (es : list (string * node))
  : list (string * node) :=
  match es with
  | [] => [(nm, v)]
  | (k, x) :: es' =>
      if String.eqb k nm then (k, v) :: es' else (k, x) :: set_entry nm v es'
  end.

(** What is stored at a path, if anything. *)
Fixpoint lookup (p : path) (n : node) : option node :=
  match p with
  | [] => Some n
  | c :: p' =>
      match n with
      | File _ => None
      | Dir es =>
          match assoc c es with
          | Some ch => lookup p' ch
          | None => None
          end
      end
  end.

(** [Path.exists] and [Path.is_dir]. *)
Definition exists_ (p : path) (n : node) : bool :=
  match lookup p n with Some _ => true | None => false end.

Definition is_dir (p : path) (n : node) : bool :=
  match lookup p n with Some (Dir _) => true | _ => false end.

(** A chain of fresh directories. *)
Fixpoint new_dirs (p : path) : node :=
  match p with
  | [] => Dir []
  | c :: p' => Dir [(c, new_dirs p')]
  end.

(** [Path.mkdir(parents=True, exist_ok=True)]: the missing directories
    are created; a directory that is there already is no error; a file
    in the way is one. *)
Fixpoint mkdir (p : path) (n : node) : exn + node :=
  match n with
  | File _ =>
      match p with
      | [] => inl FileExistsError
      | _ :: _ => inl NotADirectoryError
      end
  | Dir es =>
      match p with
      | [] => inr n
      | c :: p' =>
          match assoc c es with
          | None => inr (Dir (set_entry c (new_dirs p') es))
          | Some ch =>
              match mkdir p' ch with
              | inl e => inl e
              | inr ch' => inr (Dir (set_entry c ch' es))
              end
          end
      end
  end.

(** Make [data] the content of the file at [p]: what [open(p, 'wb')]
    does with [data = []] (create or truncate), and what [f.write(data)]
    does afterwards.  The directory of [p] has to exist and [p] must not
    be a directory. *)
Fixpoint store (p : path) (data : bytes) (n : node) : exn + node :=
  match n with
  | File _ =>
      match p with
      | [] => inr (File data)
      | _ :: _ => inl NotADirectoryError
      end
  | Dir es =>
      match p with
      | [] => inl IsADirectoryError
      | c :: p' =>
          match assoc c es with
          | Some ch =>
              match store p' data ch with
              | inl e => inl e
              | inr ch' => inr (Dir (set_entry c ch' es))
              end
          | None =>
              match p' with
              | [] => inr (Dir (set_entry c (File data) es))
              | _ :: _ => inl FileNotFoundError
              end
          end
      end
  end.

(** The entries of one directory that match [*.msg], as paths. *)
Fixpoint glob_children (fl : flavour) (dir : path)
         (es : list (string * node)) : list path :=
  match es with
  | [] => []
  | (nm, _) :: es' =>
      if match_msg fl nm then (dir ++ [nm]) :: glob_children fl dir es'
      else glob_children fl dir es'
  end.

(** [**/*.msg] below a node: the matches of the directory itself, then
    those of each subdirectory in turn. *)
Fixpoint rglob (fl : flavour) (dir : path) (n : node) : list path :=
  match n with
  | File _ => []
  | Dir es =>
      glob_children fl dir es ++
      (fix below (es : list (string * node)) : list path :=
         match es with
         | [] => []
         | (nm, ch) :: es' => rglob fl (dir ++ [nm]) ch ++ below es'
         end) es
  end.

(** [list(dir.glob('**/*.msg' if recursive else '*.msg'))]. *)
Definition glob (fl : flavour) (dir : path) (recursive : bool) (n : node)
  : list path :=
  match lookup dir n with
  | Some (Dir es) =>
      if recursive then rglob fl dir (Dir es) else glob_children fl dir es
  | _ => []
  end.

End FS.

(** ** The decoder library *)

(** [email.message.Message]: [as_bytes()] serializes or raises. *)
Record EmailMessage := { as_bytes : exn + bytes }.

(** An [extract_msg.Message] object: it remembers the file it was opened
    on; [asEmailMessage()] converts or raises. *)
Record Message := {
  msg_source : path;
  asEmailMessage : exn + EmailMessage
}.

(** The calls into the operating system that can fail for a reason the
    tree does not show. *)
Inductive os_call :=
| CallMkdir (p : path)
| CallOpen (p : path)
| CallWrite (p : path).

(** What the program cannot see from inside: the platform; the decoder,
    which given the path and what is stored there raises or yields what
    [asEmailMessage()] will answer; the faults of the operating system;
    and, for a write to a path that fails, how many bytes of the data
    reach the file before it does. *)
Record extern := {
  platform : flavour;
  decoder : path -> node -> exn + (exn + EmailMessage);
  os_fault : os_call -> option exn;
  os_partial : path -> nat
}.

(** ** The world and the monad *)

(** The lines the program prints, by the statement that prints them. *)
Inductive event :=
| ErrFileNotFound (p : path)          (* Error: File '...' not found *)
| WarnExtension (p : path)            (* Warning: File '...' doesn't have .msg extension *)
| Converted (src dst : path)          (* Converted: ... -> ... *)
| ErrConverting (p : path) (e : exn)  (* Error converting '...': ... *)
| ErrDirNotFound (p : path)           (* Error: Directory '...' not found *)
| NoMsgFiles (p : path)               (* No MSG files found in '...' *)
| Found (n : nat)                     (* Found n MSG file(s) *)
| Completed (s f : nat)               (* Completed: s successful, f failed *)
| PrintHelp                           (* parser.print_help() *)
| ErrBothGiven.                       (* Error: Cannot specify both input file and directory *)

Record world := {
  fs : node;                (* the directory tree *)
  handles : list path;      (* the decoder handles that are open *)
  printed : list event      (* what was printed, oldest first *)
}.

(** A statement either completes with a value or raises. *)
Inductive outcome (A : Type) :=
| Return (a : A)
| Raise (e : exn).
Arguments Return {A} a.
Arguments Raise {A} e.

Definition M (A : Type) := world -> outcome A * world.

Definition ret {A} (a : A) : M A := fun w => (Return a, w).

Definition raise {A} (e : exn) : M A := fun w => (Raise e, w).

Definition bind {A B} (m : M A) (k : A -> M B) : M B :=
  fun w =>
    match m w with
    | (Return a, w') => k a w'
    | (Raise e, w') => (Raise e, w')
    end.

Notation "x <- m ;; k" := (bind m (fun x => k))
  (at level 61, m at next level, right associativity).
Notation "m ;;; k" := (bind m (fun _ => k))
  (at level 61, right associativity).

(** [try: body  except Exception as e: handler e]. *)
Definition try_except_Exception {A} (body : M A) (handler : exn -> M A)
  : M A :=
  fun w =>
    match body w with
    | (Return a, w') => (Return a, w')
    | (Raise e, w') =>
        if is_Exception e then handler e w' else (Raise e, w')
    end.

(** Turn the answer of a library call into a statement. *)
Definition lift {A} (r : exn + A) : M A :=
  match r with
  | inl e => raise e
  | inr a => ret a
  end.

(** [None] from the path functions is their [ValueError]. *)
Definition or_ValueError {A} (o : option A) : M A :=
  match o with
  | Some a => ret a
  | None => raise ValueError
  end.

Definition print (ev : event) : M unit :=
  fun w => (Return tt,
            {| fs := fs w; handles := handles w;
               printed := printed w ++ [ev] |}).

Definition get_fs : M node := fun w => (Return (fs w), w).

Definition put_fs (n : node) : M unit :=
  fun w => (Return tt,
            {| fs := n; handles := handles w; printed := printed w |}).

(** Remove one occurrence of a handle. *)
Fixpoint remove_one (p : path) (hs : list path) : list path :=
  match hs with
  | [] => []
  | h :: hs' =>
      if list_eq_dec string_dec h p then hs' else h :: remove_one p hs'
  end.

Section Program.

Variable E : extern.

(** An operating-system call: the fault oracle first, then the tree. *)
Definition os (c : os_call) (f : node -> exn + node) : M unit :=
  match os_fault E c with
  | Some e => raise e
  | None => n <- get_fs ;; n' <- lift (f n) ;; put_fs n'
  end.

(** [p.mkdir(parents=True, exist_ok=True)]. *)
Definition mkdir (p : path) : M unit := os (CallMkdir p) (FS.mkdir p).

(** Entering [with open(p, 'wb') as f]. *)
Definition open_wb (p : path) : M unit := os (CallOpen p) (FS.store p []).

(** [f.write(data)] followed by the close at the end of the [with].  The
    file is buffered: a write that fails (a full disk, a quota, an I/O
    error) fails after a part of the data has reached the file, which is
    left holding that part. *)
Definition write (p : path) (data : bytes) : M unit :=
  match os_fault E (CallWrite p) with
  | Some e =>
      n <- get_fs ;;
      n' <- lift (FS.store p (firstn (os_partial E p) data) n) ;;
      put_fs n' ;;;
      raise e
  | None => n <- get_fs ;; n' <- lift (FS.store p data n) ;; put_fs n'
  end.

(** [extract_msg.Message(str(p))]: on success a handle is open. *)
Definition extract_msg_Message (p : path) : M Message :=
  fun w =>
    match FS.lookup p (fs w) with
    | None => (Raise FileNotFoundError, w)
    | Some n =>
        match decoder E p n with
        | inl e => (Raise e, w)
        | inr r =>
            (Return {| msg_source := p; asEmailMessage := r |},
             {| fs := fs w; handles := p :: handles w;
                printed := printed w |})
        end
    end.

(** [msg.close()]. *)
Definition close (msg : Message) : M unit :=
  fun w => (Return tt,
            {| fs := fs w;
               handles := remove_one (msg_source msg) (handles w);
               printed := printed w |}).

(** [convert_msg_to_eml(msg_path, output_path=None)]: the path of the
    EML file, or [None] on error. *)
Definition convert_msg_to_eml (msg_path : path) (output_path : option path)
  : M (option path) :=
  try_except_Exception
    (n <- get_fs ;;
     if negb (FS.exists_ msg_path n) then
       print (ErrFileNotFound msg_path) ;;;
       ret None
     else
       (if negb (String.eqb (PyStr.lower (suffix msg_path)) ".msg")
        then print (WarnExtension msg_path) else ret tt) ;;;
       msg <- extract_msg_Message msg_path ;;
       output_path <- match output_path with
                      | None => or_ValueError (with_suffix msg_path ".eml")
                      | Some o => ret o
                      end ;;
       mkdir (parent output_path) ;;;
       email_msg <- lift (asEmailMessage msg) ;;
       open_wb output_path ;;;
       data <- lift (as_bytes email_msg) ;;
       write output_path data ;;;
       close msg ;;;
       print (Converted msg_path output_path) ;;;
       ret (Some output_path))
    (fun e =>
       print (ErrConverting msg_path e) ;;;
       ret None).

(** The output path the batch loop computes for one file (lines 93 to
    98). *)
Definition batch_output_path (input_dir : path) (output_dir : option string)
           (msg_file : path) : M path :=
  if PyStr.truthy_opt output_dir then
    rel_path <- or_ValueError (relative_to msg_file input_dir) ;;
    eml <- or_ValueError (with_suffix rel_path ".eml") ;;
    ret (joinpath (Path (match output_dir with Some d => d | None => "" end))
                  eml)
  else
    or_ValueError (with_suffix msg_file ".eml").

(** The loop of [convert_directory], from given counts on. *)
Fixpoint convert_each (input_dir : path) (output_dir : option string)
         (msg_files : list path) (success_count failure_count : nat)
  : M (nat * nat) :=
  match msg_files with
  | [] => ret (success_count, failure_count)
  | msg_file :: rest =>
      output_path <- batch_output_path input_dir output_dir msg_file ;;
      result <- convert_msg_to_eml msg_file (Some output_path) ;;
      match result with
      | Some _ =>
          convert_each input_dir output_dir rest
                       (success_count + 1) failure_count
      | None =>
          convert_each input_dir output_dir rest
                       success_count (failure_count + 1)
      end
  end.

(** [convert_directory(input_dir, output_dir=None, recursive=False)]:
    the pair [(success_count, failure_count)]. *)
Definition convert_directory (input_dir : string)
           (output_dir : option string) (recursive : bool)
  : M (nat * nat) :=
  let input_dir := Path input_dir in
  n <- get_fs ;;
  if negb (FS.exists_ input_dir n) || negb (FS.is_dir input_dir n) then
    print (ErrDirNotFound input_dir) ;;;
    ret (0, 0)
  else
    let msg_files := FS.glob (platform E) input_dir recursive n in
    match msg_files with
    | [] =>
        print (NoMsgFiles input_dir) ;;;
        ret (0, 0)
    | _ :: _ =>
        print (Found (List.length msg_files)) ;;;
        convert_each input_dir output_dir msg_files 0 0
    end.

(** The parsed command line. *)
Record args := {
  input : option string;
  output : option string;
  directory : option string;
  recursive : bool
}.

(** [sys.exit(n)]. *)
Definition sys_exit {A} (n : nat) : M A := raise (SystemExit n).

(** [main()] from line 147 on: [a] is what [parse_args] has returned on
    line 145.  (On a malformed command line and on [-h] [parse_args] does
    not return: [argparse] ends the process itself, with status 2 and 0.) *)
Definition main (a : args) : M unit :=
  (if negb (PyStr.truthy_opt (input a)) &&
      negb (PyStr.truthy_opt (directory a))
   then print PrintHelp ;;; sys_exit 1 else ret tt) ;;;
  (if PyStr.truthy_opt (input a) && PyStr.truthy_opt (directory a)
   then print ErrBothGiven ;;; sys_exit 1 else ret tt) ;;;
  (if PyStr.truthy_opt (directory a) then
     sf <- convert_directory
             (match directory a with Some d => d | None => "" end)
             (output a) (recursive a) ;;
     print (Completed (fst sf) (snd sf)) ;;;
     sys_exit (if snd sf =? 0 then 0 else 1)
   else ret tt) ;;;
  (if PyStr.truthy_opt (input a) then
     result <- convert_msg_to_eml
                 (Path (match input a with Some i => i | None => "" end))
                 (option_map Path (output a)) ;;
     sys_exit (match result with Some _ => 0 | None => 1 end)
   else ret tt).

(** How the process ends: [SystemExit n] ends it with status [n],
    falling off the end of [main] with status 0, any other exception
    with a traceback. *)
Inductive ending :=
| Exit (status : nat)
| Traceback (e : exn).

Definition run (a : args) (w : world) : ending * world :=
  match main a w with
  | (Return _, w') => (Exit 0, w')
  | (Raise (SystemExit n), w') => (Exit n, w')
  | (Raise e, w') => (Traceback e, w')
  end.

End Program.

(** ** Concrete worlds, for the examples *)

Module Sample.

Definition x01 : bytes := [Init.Byte.x01].
Definition x02 : bytes := [Init.Byte.x02].

(** A decoder that accepts every regular file and serializes it to its
    own content, on a system without faults. *)
Definition plain (fl : flavour) : extern :=
  {| platform := fl;
     decoder := fun _ n =>
       match n with
       | File d => inr (inr {| as_bytes := inr d |})
       | Dir _ => inl IsADirectoryError
       end;
     os_fault := fun _ => None;
     os_partial := fun _ => 0 |}.

(** The same decoder on a disk that is full after one more byte: every
    write fails with the first byte in the file. *)
Definition full_disk : extern :=
  {| platform := Posix;
     decoder := decoder (plain Posix);
     os_fault := fun c =>
       match c with CallWrite _ => Some OSError | _ => None end;
     os_partial := fun _ => 1 |}.

(** A decoder whose messages cannot be serialized. *)
Definition unserializable : extern :=
  {| platform := Posix;
     decoder := fun _ _ =>
       inr (inr {| as_bytes := inl (LibraryError "boom") |});
     os_fault := fun _ => None;
     os_partial := fun _ => 0 |}.

Definition start (root : node) : world :=
  {| fs := root; handles := []; printed := [] |}.

(** [inbox/] holds [a.msg], [b.msg], [notes.txt] and [sub/c.msg]. *)
Definition inbox_tree : node :=
  Dir [("inbox",
        Dir [("a.msg", File x01);
             ("b.msg", File x02);
             ("notes.txt", File []);
             ("sub", Dir [("c.msg", File x01)])])].

(** [inbox/] holds only [A.MSG]. *)
Definition upper_tree : node :=
  Dir [("inbox", Dir [("A.MSG", File x01)])].

(** [a.msg] on its own. *)
Definition single_tree : node := Dir [("a.msg", File x01)].

(** [a.msg] next to a directory [out/]. *)
Definition outdir_tree : node :=
  Dir [("a.msg", File x01); ("out", Dir [])].

(** [inbox/] exists and holds nothing that matches. *)
Definition text_tree : node :=
  Dir [("inbox", Dir [("notes.txt", File [])])].

(** [inbox/] holds [a.msg], a directory called [b.msg], and [c.msg]. *)
Definition mixed_tree : node :=
  Dir [("inbox",
        Dir [("a.msg", File x01);
             ("b.msg", Dir []);
             ("c.msg", File x02)])].

(** [a.msg] holds two bytes. *)
Definition long_tree : node :=
  Dir [("a.msg", File [Init.Byte.x01; Init.Byte.x02])].

End Sample.

(** ** Vocabulary of the statements *)

(** [wp m w Q]: running [m] from [w] ends in an outcome and a world that
    satisfy [Q]. *)
Definition wp {A} (m : M A) (w : world) (Q : outcome A -> world -> Prop)
  : Prop :=
  Q (fst (m w)) (snd (m w)).

(** The world after printing some more lines. *)
Definition with_printed (w : world) (evs : list event) : world :=
  {| fs := fs w; handles := handles w; printed := printed w ++ evs |}.

(** The exceptions the environment [E] is able to raise. *)
Inductive env_raises (E : extern) (e : exn) : Prop :=
| raises_open : forall p n, decoder E p n = inl e -> env_raises E e
| raises_convert : forall p n, decoder E p n = inr (inl e) -> env_raises E e
| raises_serialize : forall p n em,
    decoder E p n = inr (inr em) -> as_bytes em = inl e -> env_raises E e
| raises_os : forall c, os_fault E c = Some e -> env_raises E e.

(** An environment in which every error is an [Exception]: a decode
    error, an I/O error, anything but an interrupt or an exit request. *)
Definition only_Exceptions (E : extern) : Prop :=
  forall e, env_raises E e -> is_Exception e = true.

(** The lines that report the result of one conversion: the success
    line of line 53, and the two error lines of [convert_msg_to_eml]
    (lines 28 and 57).  The line [Error: Directory ... not found] of
    [convert_directory] is about no conversion and is neither. *)
Definition is_success (ev : event) : bool :=
  match ev with Converted _ _ => true | _ => false end.

Definition is_failure (ev : event) : bool :=
  match ev with
  | ErrFileNotFound _ | ErrConverting _ _ => true
  | _ => false
  end.

(** The input file a line is about, if it is about one. *)
Definition reports (ev : event) : option path :=
  match ev with
  | Converted src _ => Some src
  | ErrFileNotFound p | ErrConverting p _ | WarnExtension p => Some p
  | _ => None
  end.

Definition count (f : event -> bool) (evs : list event) : nat :=
  List.length (filter f evs).

(** The warning [convert_msg_to_eml] prints for a path, if any. *)
Definition warning (p : path) : list event :=
  if negb (String.eqb (PyStr.lower (suffix p)) ".msg")
  then [WarnExtension p] else [].

(** The output path [convert_msg_to_eml] resolves (lines 38 to 41). *)
Definition resolved (msg_path : path) (output_path : option path)
  : option path :=
  match output_path with
  | None => with_suffix msg_path ".eml"
  | Some o => Some o
  end.

(** A node is reached from another along a path of entries. *)
Inductive reaches : node -> path -> node -> Prop :=
| reaches_here : forall n, reaches n [] n
| reaches_step : forall es c ch p n,
    In (c, ch) es -> reaches ch p n -> reaches (Dir es) (c :: p) n.

(** What one call of [convert_msg_to_eml] can end in, from world [w]:
    - a path: it is the resolved output path, the file there holds what
      the decoder serialized, the handle is closed again, the last line
      printed is the success line, and no call of the operating system
      has failed;
    - [None]: the last line printed is an error line about the input;
    - an exception: one of the environment that is no [Exception]. *)
Definition convert_post (E : extern) (msg_path : path)
           (output_path : option path) (w : world)
           (o : outcome (option path)) (w' : world) : Prop :=
  match o with
  | Return (Some out) =>
      resolved msg_path output_path = Some out /\
      handles w' = handles w /\
      printed w' = printed w ++ warning msg_path ++ [Converted msg_path out] /\
      (exists n em data,
          FS.lookup msg_path (fs w) = Some n /\
          decoder E msg_path n = inr (inr em) /\
          as_bytes em = inr data /\
          FS.lookup out (fs w') = Some (File data)) /\
      (exists n1, FS.mkdir (parent out) (fs w) = inr n1) /\
      os_fault E (CallMkdir (parent out)) = None /\
      os_fault E (CallOpen out) = None /\
      os_fault E (CallWrite out) = None
  | Return None =>
      exists pre ev,
        printed w' = printed w ++ pre ++ [ev] /\
        (pre = [] \/ pre = warning msg_path) /\
        is_failure ev = true /\ reports ev = Some msg_path
  | Raise e => is_Exception e = false /\ env_raises E e
  end.

(** Where the batch loop sends the file [input_dir/rel/nm]: into the
    output directory when that argument is a non-empty string, next to
    the input file otherwise. *)
Definition batch_target (input_dir : path) (output_dir : option string)
           (rel : path) (nm : string) : path :=
  if PyStr.truthy_opt output_dir
  then Path (match output_dir with Some d => d | None => "" end)
       ++ rel ++ [with_suffix_name nm ".eml"]
  else input_dir ++ rel ++ [with_suffix_name nm ".eml"].

(** What the batch loop can end in, started with the counts [s0], [f0]
    in world [w]: the counts have grown by the number of success lines
    and of error lines printed, there is one such line for each file, and
    every file has its own; or an exception of the environment that is no
    [Exception] went through. *)
Definition batch_post (E : extern) (msg_files : list path) (s0 f0 : nat)
           (w : world) (o : outcome (nat * nat)) (w' : world) : Prop :=
  match o with
  | Return (s, f) =>
      exists evs,
        printed w' = printed w ++ evs /\
        s = s0 + count is_success evs /\
        f = f0 + count is_failure evs /\
        count is_success evs + count is_failure evs = List.length msg_files /\
        forall p, In p msg_files ->
                  exists ev, In ev evs /\ reports ev = Some p /\
                             (is_success ev || is_failure ev) = true
  | Raise e => is_Exception e = false /\ env_raises E e
  end.

(** The errors one file can run into, for the call
    [convert_msg_to_eml msg_path output_path] in world [w]:
    - the input is not there;
    - the decoder cannot open it, cannot convert it or cannot serialize
      it;
    - there is no output path, the input path having no name to put the
      extension on;
    - the directory of the output cannot be made, by the state of the
      tree (a file is in the way) or by a fault;
    - the output file cannot be opened, by the state of the tree once the
      directory is made (the output path is a directory, or leads through
      a file) or by a fault;
    - the output file cannot be written, by a fault.  (Once the file is
      open the tree cannot make the write fail: [store_again].) *)
Inductive per_file_error (E : extern) (msg_path : path)
          (output_path : option path) (w : world) : Prop :=
| error_not_found :
    FS.exists_ msg_path (fs w) = false ->
    per_file_error E msg_path output_path w
| error_decode : forall n e,
    FS.lookup msg_path (fs w) = Some n -> decoder E msg_path n = inl e ->
    per_file_error E msg_path output_path w
| error_convert : forall n e,
    FS.lookup msg_path (fs w) = Some n ->
    decoder E msg_path n = inr (inl e) ->
    per_file_error E msg_path output_path w
| error_serialize : forall n em e,
    FS.lookup msg_path (fs w) = Some n ->
    decoder E msg_path n = inr (inr em) -> as_bytes em = inl e ->
    per_file_error E msg_path output_path w
| error_no_name :
    resolved msg_path output_path = None ->
    per_file_error E msg_path output_path w
| error_mkdir : forall out e,
    resolved msg_path output_path = Some out ->
    FS.mkdir (parent out) (fs w) = inl e \/
    os_fault E (CallMkdir (parent out)) = Some e ->
    per_file_error E msg_path output_path w
| error_open : forall out e,
    resolved msg_path output_path = Some out ->
    os_fault E (CallOpen out) = Some e ->
    per_file_error E msg_path output_path w
| error_open_tree : forall out n1 e,
    resolved msg_path output_path = Some out ->
    FS.mkdir (parent out) (fs w) = inr n1 ->
    FS.store out [] n1 = inl e ->
    per_file_error E msg_path output_path w
| error_write : forall out e,
    resolved msg_path output_path = Some out ->
    os_fault E (CallWrite out) = Some e ->
    per_file_error E msg_path output_path w.

(** One call the batch loop makes: the file, the output path passed, and
    what [convert_msg_to_eml] has returned. *)
Record call := {
  call_file : path;
  call_output : path;
  call_result : option path
}.

(** Calls made in turn, from a world to a world: each is a run of
    [convert_msg_to_eml] on the file and the output path of the call,
    which returns the result of the call, and which starts in the world
    the call before has left. *)
Inductive in_turn (E : extern) : list call -> world -> world -> Prop :=
| turn_done : forall w, in_turn E [] w w
| turn_next : forall c cs w w1 w',
    convert_msg_to_eml E (call_file c) (Some (call_output c)) w =
      (Return (call_result c), w1) ->
    in_turn E cs w1 w' ->
    in_turn E (c :: cs) w w'.

(** The truth value of a result: a path is true, [None] is false. *)
Definition is_path (r : option path) : bool :=
  match r with Some _ => true | None => false end.

(** The calls that returned a path, and those that returned [None]. *)
Definition successes (cs : list call) : nat :=
  List.length (filter (fun c => is_path (call_result c)) cs).

Definition failures (cs : list call) : nat :=
  List.length (filter (fun c => negb (is_path (call_result c))) cs).

(** The output path of a call is the one lines 93 to 98 give its file:
    the file lies below the input directory, and the path is
    [batch_target] of its relative path. *)
Definition sent (input_dir : path) (output_dir : option string) (c : call)
  : Prop :=
  exists rel nm,
    nm <> "" /\
    call_file c = input_dir ++ rel ++ [nm] /\
    call_output c = batch_target input_dir output_dir rel nm.

(** The files are such as [glob] yields below [input_dir]. *)
Definition found (E : extern) (input_dir : path) (msg_files : list path)
  : Prop :=
  forall f, In f msg_files ->
            exists rel nm, match_msg (platform E) nm = true /\
                           f = input_dir ++ rel ++ [nm].

(** Induction on trees: a directory has the property once all its
    entries have it. *)
Fixpoint node_rect' (P : node -> Prop)
         (HF : forall d, P (File d))
         (HD : forall es, Forall (fun e => P (snd e)) es -> P (Dir es))
         (n : node) : P n :=
  match n with
  | File d => HF d
  | Dir es =>
      HD es ((fix all (es : list (string * node))
              : Forall (fun e => P (snd e)) es :=
                match es with
                | [] => Forall_nil _
                | e :: es' =>
                    Forall_cons e (node_rect' P HF HD (snd e)) (all es')
                end) es)
  end.

(** What a call that only adds to the tree leaves of a node: a file
    keeps its content, a directory stays a directory. *)
Definition kept (x x' : node) : Prop :=
  match x with
  | File d => x' = File d
  | Dir _ => exists es', x' = Dir es'
  end.

(** The tree a conversion with output path [out] can leave, from the
    tree [n]: untouched; with the directory of [out] made; with [out]
    opened, that is created or truncated; with [out] written in part, by
    a write that has failed; with [out] written.  The index tells what
    was written by a write that has succeeded, if there is one. *)
Inductive fs_after (out : path) (n : node) : option bytes -> node -> Prop :=
| fs_untouched : fs_after out n None n
| fs_made : forall n1,
    FS.mkdir (parent out) n = inr n1 -> fs_after out n None n1
| fs_opened : forall n1 n2,
    FS.mkdir (parent out) n = inr n1 -> FS.store out [] n1 = inr n2 ->
    fs_after out n None n2
| fs_partial : forall n1 n2 n3 d,
    FS.mkdir (parent out) n = inr n1 -> FS.store out [] n1 = inr n2 ->
    FS.store out d n2 = inr n3 ->
    fs_after out n None n3
| fs_written : forall n1 n2 n3 d,
    FS.mkdir (parent out) n = inr n1 -> FS.store out [] n1 = inr n2 ->
    FS.store out d n2 = inr n3 ->
    fs_after out n (Some d) n3.

(** The effects of one call of [convert_msg_to_eml], whatever its
    outcome: for an input that exists the lines printed start with the
    warning; at most the handle on the input is left open; the tree
    changes by the steps of [fs_after] on the resolved output path, and
    the file is written when a path is returned. *)
Definition convert_effects (msg_path : path) (output_path : option path)
           (w : world) (o : outcome (option path)) (w' : world) : Prop :=
  (FS.exists_ msg_path (fs w) = true ->
   exists rest, printed w' = printed w ++ warning msg_path ++ rest) /\
  (handles w' = handles w \/ handles w' = msg_path :: handles w) /\
  match resolved msg_path output_path with
  | None => fs w' = fs w
  | Some out =>
      exists wd, fs_after out (fs w) wd (fs w') /\
                 match o with
                 | Return (Some _) => exists d, wd = Some d
                 | _ => True
                 end
  end.

(** The input files the result lines among [evs] are about, in the
    order of the lines. *)
Fixpoint subjects (evs : list event) : list path :=
  match evs with
  | [] => []
  | ev :: evs' =>
      if is_success ev || is_failure ev then
        match reports ev with
        | Some p => p :: subjects evs'
        | None => subjects evs'
        end
      else subjects evs'
  end.

(** The part of [convert_effects] that is about the tree. *)
Definition fs_part (msg_path : path) (output_path : option path)
           (w : world) (n' : node) : Prop :=
  match resolved msg_path output_path with
  | None => n' = fs w
  | Some out => exists wd, fs_after out (fs w) wd n'
  end.

(** * Properties *)

(** ** The path functions on examples *)

Example suffix_plain : suffix_of "mail.msg" = ".msg".
Proof. reflexivity. Qed.
Example suffix_two_dots : suffix_of "a.tar.MSG" = ".MSG".
Proof. reflexivity. Qed.
Example suffix_hidden : suffix_of ".msg" = "".
Proof. reflexivity. Qed.
Example suffix_trailing_dot : suffix_of "mail." = "".
Proof. reflexivity. Qed.
Example with_suffix_plain :
  with_suffix ["in"; "mail.msg"] ".eml" = Some ["in"; "mail.eml"].
Proof. reflexivity. Qed.
Example with_suffix_none :
  with_suffix ["in"; "mail"] ".eml" = Some ["in"; "mail.eml"].
Proof. reflexivity. Qed.
Example with_suffix_empty : with_suffix [] ".eml" = None.
Proof. reflexivity. Qed.
Example Path_parse : Path "in//sub/./mail.msg" = ["in"; "sub"; "mail.msg"].
Proof. reflexivity. Qed.
Example Path_empty : Path "" = [].
Proof. reflexivity. Qed.
Example match_upper_posix : match_msg Posix "A.MSG" = false.
Proof. reflexivity. Qed.
Example match_upper_windows : match_msg Windows "A.MSG" = true.
Proof. reflexivity. Qed.
Example match_hidden : match_msg Posix ".msg" = true.
Proof. reflexivity. Qed.

(** ** Strings and paths *)

Lemma truthy_nonempty (s : string) : PyStr.truthy s = true <-> s <> "".
Proof.
  destruct s; simpl; split; intro H; try discriminate; auto.
Qed.

Lemma match_msg_nonempty (fl : flavour) (nm : string) :
  match_msg fl nm = true -> nm <> "".
Proof.
  intros H ->. destruct fl; discriminate H.
Qed.

Lemma last_snoc (A : Type) (l : list A) (x d : A) : last (l ++ [x]) d = x.
Proof.
  induction l as [|a l IH]; simpl; [reflexivity|].
  destruct (l ++ [x]) eqn:Hl; [destruct l; discriminate | exact IH].
Qed.

Lemma removelast_snoc (A : Type) (l : list A) (x : A) :
  removelast (l ++ [x]) = l.
Proof.
  induction l as [|a l IH]; simpl; [reflexivity|].
  destruct (l ++ [x]) eqn:Hl; [destruct l; discriminate |].
  rewrite IH; reflexivity.
Qed.

(** [with_suffix] on a path whose last component is a proper name. *)
Lemma with_suffix_snoc (dir : path) (nm new : string) :
  nm <> "" ->
  with_suffix (dir ++ [nm]) new = Some (dir ++ [with_suffix_name nm new]).
Proof.
  intros Hnm. unfold with_suffix, name.
  rewrite last_snoc, removelast_snoc.
  destruct (String.eqb nm "") eqn:He; [|reflexivity].
  apply String.eqb_eq in He. contradiction.
Qed.

(** [relative_to] takes a prefix off again. *)
Lemma relative_to_app (base rel : path) :
  relative_to (base ++ rel) base = Some rel.
Proof.
  induction base as [|b base IH]; simpl; [reflexivity|].
  rewrite String.eqb_refl. exact IH.
Qed.

(** ** The file system *)

Lemma assoc_set_entry (nm : string) (v : node) (es : list (string * node)) :
  FS.assoc nm (FS.set_entry nm v es) = Some v.
Proof.
  induction es as [|[k x] es IH]; simpl.
  - rewrite String.eqb_refl; reflexivity.
  - destruct (String.eqb k nm) eqn:Hk; simpl; rewrite Hk; auto.
Qed.

Lemma mkdir_error (p : path) :
  forall n e, FS.mkdir p n = inl e -> is_Exception e = true.
Proof.
  induction p as [|c p IH]; intros [d|es] e H; simpl in H;
    try (inversion H; reflexivity).
  destruct (FS.assoc c es) as [ch|]; [|discriminate].
  destruct (FS.mkdir p ch) eqn:Hm; [|discriminate].
  inversion H; subst. eapply IH; eassumption.
Qed.

Lemma store_error (p : path) (d : bytes) :
  forall n e, FS.store p d n = inl e -> is_Exception e = true.
Proof.
  induction p as [|c p IH]; intros [d0|es] e H; simpl in H;
    try (inversion H; reflexivity).
  destruct (FS.assoc c es) as [ch|].
  - destruct (FS.store p d ch) eqn:Hm; [|discriminate].
    inversion H; subst. eapply IH; eassumption.
  - destruct p; inversion H; reflexivity.
Qed.

(** After a store the file is there, with the content stored. *)
Lemma store_lookup (p : path) (d : bytes) :
  forall n n', FS.store p d n = inr n' -> FS.lookup p n' = Some (File d).
Proof.
  induction p as [|c p IH]; intros [d0|es] n' H; simpl in H;
    try discriminate.
  - inversion H; reflexivity.
  - destruct (FS.assoc c es) as [ch|] eqn:Ha.
    + destruct (FS.store p d ch) as [e|ch'] eqn:Hs; [discriminate|].
      inversion H; subst. simpl. rewrite assoc_set_entry. eauto.
    + destruct p; [|discriminate].
      inversion H; subst. simpl. rewrite assoc_set_entry. reflexivity.
Qed.

(** ** Rules for running statements *)

Section Rules.

Variable E : extern.
Context {A B : Type}.

Lemma wp_run (m : M A) (w : world) (Q : outcome A -> world -> Prop) :
  wp m w Q -> forall o w', m w = (o, w') -> Q o w'.
Proof. unfold wp. intros H o w' Hm. rewrite Hm in H. exact H. Qed.

Lemma wp_conseq (m : M A) (w : world) (Q Q' : outcome A -> world -> Prop) :
  wp m w Q -> (forall o w', Q o w' -> Q' o w') -> wp m w Q'.
Proof. unfold wp. auto. Qed.

Lemma wp_ret (a : A) (w : world) (Q : outcome A -> world -> Prop) :
  Q (Return a) w -> wp (ret a) w Q.
Proof. auto. Qed.

Lemma wp_raise (e : exn) (w : world) (Q : outcome A -> world -> Prop) :
  Q (Raise e) w -> wp (raise e) w Q.
Proof. auto. Qed.

Lemma wp_bind (m : M A) (k : A -> M B) (w : world)
      (Q : outcome B -> world -> Prop) :
  wp m w (fun o w1 =>
            match o with
            | Return a => wp (k a) w1 Q
            | Raise e => Q (Raise e) w1
            end) ->
  wp (bind m k) w Q.
Proof.
  unfold wp, bind. destruct (m w) as [[a|e] w1]; simpl; auto.
Qed.

Lemma wp_try (body : M A) (handler : exn -> M A) (w : world)
      (Q : outcome A -> world -> Prop) :
  wp body w (fun o w1 =>
               match o with
               | Return a => Q (Return a) w1
               | Raise e =>
                   if is_Exception e then wp (handler e) w1 Q
                   else Q (Raise e) w1
               end) ->
  wp (try_except_Exception body handler) w Q.
Proof.
  unfold wp, try_except_Exception.
  destruct (body w) as [[a|e] w1]; simpl; auto.
  destruct (is_Exception e); auto.
Qed.

Lemma wp_lift (r : exn + A) (w : world) (Q : outcome A -> world -> Prop) :
  match r with inl e => Q (Raise e) w | inr a => Q (Return a) w end ->
  wp (lift r) w Q.
Proof. destruct r; auto. Qed.

Lemma wp_or_ValueError (o : option A) (w : world)
      (Q : outcome A -> world -> Prop) :
  match o with None => Q (Raise ValueError) w | Some a => Q (Return a) w end ->
  wp (or_ValueError o) w Q.
Proof. destruct o; auto. Qed.

End Rules.

Section UnitRules.

Variable E : extern.

Lemma wp_print (ev : event) (w : world) (Q : outcome unit -> world -> Prop) :
  Q (Return tt) (with_printed w [ev]) -> wp (print ev) w Q.
Proof. auto. Qed.

Lemma wp_get_fs (w : world) (Q : outcome node -> world -> Prop) :
  Q (Return (fs w)) w -> wp get_fs w Q.
Proof. auto. Qed.

(** A call into the operating system: it fails by the oracle, fails by
    the state of the tree, or replaces the tree. *)
Lemma wp_os (c : os_call) (f : node -> exn + node) (w : world)
      (Q : outcome unit -> world -> Prop) :
  (forall e, os_fault E c = Some e -> Q (Raise e) w) ->
  (forall e, f (fs w) = inl e -> Q (Raise e) w) ->
  (forall n', os_fault E c = None -> f (fs w) = inr n' ->
              Q (Return tt)
                {| fs := n'; handles := handles w; printed := printed w |}) ->
  wp (os E c f) w Q.
Proof.
  intros Hfault Herr Hok. unfold wp, os.
  destruct (os_fault E c) as [e|] eqn:Hc; [apply Hfault; reflexivity|].
  unfold bind, get_fs, lift, put_fs; simpl.
  destruct (f (fs w)) as [e|n'] eqn:Hf; simpl; auto.
Qed.

(** A write: it fails by the oracle, leaving a part of the data in the
    file; it is refused by the tree; or it replaces the content. *)
Lemma wp_write (p : path) (data : bytes) (w : world)
      (Q : outcome unit -> world -> Prop) :
  (forall e n', os_fault E (CallWrite p) = Some e ->
                FS.store p (firstn (os_partial E p) data) (fs w) = inr n' ->
                Q (Raise e)
                  {| fs := n'; handles := handles w; printed := printed w |}) ->
  (forall e d, FS.store p d (fs w) = inl e -> Q (Raise e) w) ->
  (forall n', os_fault E (CallWrite p) = None ->
              FS.store p data (fs w) = inr n' ->
              Q (Return tt)
                {| fs := n'; handles := handles w; printed := printed w |}) ->
  wp (write E p data) w Q.
Proof.
  intros Hfault Herr Hok. unfold wp, write.
  destruct (os_fault E (CallWrite p)) as [e|] eqn:Hc;
    unfold bind, get_fs, lift, put_fs; simpl.
  - destruct (FS.store p (firstn (os_partial E p) data) (fs w))
      as [e'|n'] eqn:Hf; simpl; eauto.
  - destruct (FS.store p data (fs w)) as [e'|n'] eqn:Hf; simpl; eauto.
Qed.

Lemma wp_extract_msg_Message (p : path) (w : world)
      (Q : outcome Message -> world -> Prop) :
  (FS.lookup p (fs w) = None -> Q (Raise FileNotFoundError) w) ->
  (forall n e, FS.lookup p (fs w) = Some n -> decoder E p n = inl e ->
               Q (Raise e) w) ->
  (forall n r, FS.lookup p (fs w) = Some n -> decoder E p n = inr r ->
               Q (Return {| msg_source := p; asEmailMessage := r |})
                 {| fs := fs w; handles := p :: handles w;
                    printed := printed w |}) ->
  wp (extract_msg_Message E p) w Q.
Proof.
  intros Hnone Herr Hok. unfold wp, extract_msg_Message.
  destruct (FS.lookup p (fs w)) as [n|]; [|auto].
  destruct (decoder E p n) as [e|r] eqn:Hd; simpl; eauto.
Qed.

Lemma wp_close (msg : Message) (w : world)
      (Q : outcome unit -> world -> Prop) :
  Q (Return tt)
    {| fs := fs w; handles := remove_one (msg_source msg) (handles w);
       printed := printed w |} ->
  wp (close msg) w Q.
Proof. auto. Qed.

Lemma with_printed_nil (w : world) : with_printed w [] = w.
Proof. destruct w; unfold with_printed; simpl. rewrite app_nil_r. reflexivity. Qed.

Lemma wp_warning (p : path) (w : world)
      (Q : outcome unit -> world -> Prop) :
  Q (Return tt) (with_printed w (warning p)) ->
  wp (if negb (String.eqb (PyStr.lower (suffix p)) ".msg")
      then print (WarnExtension p) else ret tt) w Q.
Proof.
  unfold warning.
  destruct (negb (String.eqb (PyStr.lower (suffix p)) ".msg")).
  - apply wp_print.
  - rewrite with_printed_nil. apply wp_ret.
Qed.

End UnitRules.

(** One step through a statement. *)
Ltac wp_step :=
  lazymatch goal with
  | |- wp (bind _ _) _ _ => apply wp_bind
  | |- wp (ret _) _ _ => apply wp_ret
  | |- wp (raise _) _ _ => apply wp_raise
  | |- wp (print _) _ _ => apply wp_print
  | |- wp get_fs _ _ => apply wp_get_fs
  | |- wp (close _) _ _ => apply wp_close
  | |- wp (lift _) _ _ => apply wp_lift
  | |- wp (or_ValueError _) _ _ => apply wp_or_ValueError
  | |- wp (if negb (String.eqb _ _) then _ else _) _ _ => apply wp_warning
  end;
  cbn [fs handles printed with_printed asEmailMessage msg_source].

(** ** One conversion *)

Section Convert.

Variable E : extern.

(** The [except] clause, for an exception raised after the warning. *)
Lemma convert_except (msg_path : path) (output_path : option path)
      (w w1 : world) (e : exn) :
  printed w1 = printed w ++ warning msg_path ->
  is_Exception e = true \/ env_raises E e ->
  if is_Exception e
  then wp (print (ErrConverting msg_path e) ;;; ret None) w1
          (convert_post E msg_path output_path w)
  else convert_post E msg_path output_path w (Raise e) w1.
Proof.
  intros Hpr He. destruct (is_Exception e) eqn:Hexc.
  - do 3 wp_step. exists (warning msg_path), (ErrConverting msg_path e).
    cbn [printed with_printed]. rewrite Hpr, app_assoc. simpl. auto.
  - split; [exact Hexc|]. destruct He; [discriminate | assumption].
Qed.

Lemma convert_msg_to_eml_post (msg_path : path) (output_path : option path)
      (w : world) :
  wp (convert_msg_to_eml E msg_path output_path) w
     (convert_post E msg_path output_path w).
Proof.
  unfold convert_msg_to_eml.
  apply wp_try. do 2 wp_step.
  destruct (negb (FS.exists_ msg_path (fs w))) eqn:Hex.
  - do 3 wp_step. exists [], (ErrFileNotFound msg_path). simpl. auto.
  - do 3 wp_step.
    apply wp_extract_msg_Message; cbn [fs handles printed with_printed].
    { intros _. apply convert_except; auto. }
    { intros n e Hn He. apply convert_except; eauto using env_raises. }
    intros n r Hn Hd. wp_step.
    assert (Hout : forall w2 Q,
               match resolved msg_path output_path with
               | Some o => Q (Return o) w2
               | None => Q (Raise ValueError) w2
               end ->
               wp (match output_path with
                   | Some o0 => ret o0
                   | None => or_ValueError (with_suffix msg_path ".eml")
                   end) w2 Q).
    { intros w2 Q. unfold resolved. destruct output_path; intros H.
      - apply wp_ret; exact H.
      - apply wp_or_ValueError.
        destruct (with_suffix msg_path ".eml"); exact H. }
    apply Hout; clear Hout.
    destruct (resolved msg_path output_path) as [out|] eqn:Hres;
      [|apply convert_except; auto].
    wp_step. unfold mkdir. apply wp_os; cbn [fs handles printed].
    { intros e He. apply convert_except; eauto using env_raises. }
    { intros e He. apply convert_except; eauto using mkdir_error. }
    intros n1 Hfmk Hmk. do 2 wp_step.
    destruct r as [e|email_msg];
      [apply convert_except; eauto using env_raises|].
    wp_step. unfold open_wb. apply wp_os; cbn [fs handles printed].
    { intros e He. apply convert_except; eauto using env_raises. }
    { intros e He. apply convert_except; eauto using store_error. }
    intros n2 Hfop Hop. do 2 wp_step.
    destruct (as_bytes email_msg) as [e|data] eqn:Hdata;
      [apply convert_except; eauto using env_raises|].
    wp_step. apply wp_write; cbn [fs handles printed].
    { intros e n3 He _. apply convert_except; eauto using env_raises. }
    { intros e d He. apply convert_except; eauto using store_error. }
    intros n3 Hfwr Hwr. do 5 wp_step.
    cbn [msg_source remove_one].
    destruct (list_eq_dec string_dec msg_path msg_path) as [_|Hne];
      [|contradiction].
    repeat split; eauto.
    + cbn [printed with_printed]. rewrite <- app_assoc. reflexivity.
    + exists n, email_msg, data. repeat split; auto.
      cbn [fs with_printed]. eapply store_lookup; eassumption.
Qed.

(** The same, for a run of the function. *)
Lemma convert_msg_to_eml_run (msg_path : path) (output_path : option path)
      (w w' : world) (o : outcome (option path)) :
  convert_msg_to_eml E msg_path output_path w = (o, w') ->
  convert_post E msg_path output_path w o w'.
Proof. apply wp_run, convert_msg_to_eml_post. Qed.

End Convert.

(** ** Enumeration *)

(** What [*.msg] selects in one directory: the entries whose name
    matches, whatever they are. *)
Lemma glob_children_In (fl : flavour) (dir : path)
      (es : list (string * node)) (f : path) :
  In f (FS.glob_children fl dir es) <->
  exists nm ch, In (nm, ch) es /\ match_msg fl nm = true /\ f = dir ++ [nm].
Proof.
  induction es as [|[nm ch] es IH]; simpl.
  - split; [tauto | intros (? & ? & [] & _)].
  - destruct (match_msg fl nm) eqn:Hm; simpl; rewrite IH; split.
    + intros [<- | (nm' & ch' & Hin & Hm' & ->)]; eauto 8.
    + intros (nm' & ch' & [Heq | Hin] & Hm' & ->).
      * inversion Heq; subst; auto.
      * right; eauto.
    + intros (nm' & ch' & Hin & Hm' & ->); eauto 8.
    + intros (nm' & ch' & [Heq | Hin] & Hm' & ->).
      * inversion Heq; subst; congruence.
      * eauto.
Qed.

(** The matches below the entries of a directory. *)
Lemma below_In (fl : flavour) (dir : path) (es : list (string * node))
      (f : path) :
  In f ((fix below (es : list (string * node)) : list path :=
           match es with
           | [] => []
           | (nm, ch) :: es' => FS.rglob fl (dir ++ [nm]) ch ++ below es'
           end) es) <->
  exists nm ch, In (nm, ch) es /\ In f (FS.rglob fl (dir ++ [nm]) ch).
Proof.
  induction es as [|[nm ch] es IH].
  - split; [intros [] | intros (? & ? & [] & _)].
  - rewrite in_app_iff, IH. split.
    + intros [H | (nm' & ch' & Hin & H)]; [exists nm, ch | exists nm', ch'];
        simpl; auto.
    + intros (nm' & ch' & [Heq | Hin] & H).
      * inversion Heq; subst; auto.
      * right; eauto.
Qed.

(** What [**/*.msg] selects: every entry of the subtree whose name
    matches. *)
Lemma rglob_In (fl : flavour) (n : node) :
  forall (dir f : path),
    In f (FS.rglob fl dir n) <->
    exists rel nm x,
      reaches n (rel ++ [nm]) x /\ match_msg fl nm = true /\
      f = dir ++ rel ++ [nm].
Proof.
  induction n as [d|es IH] using node_rect'; intros dir f.
  - simpl. split; [tauto|].
    intros (rel & nm & x & Hr & _). inversion Hr; subst.
    destruct rel; discriminate.
  - cbn [FS.rglob]. rewrite in_app_iff, glob_children_In, below_In. split.
    + intros [(nm & ch & Hin & Hm & ->) | (c & ch & Hin & Hf)].
      * exists [], nm, ch. simpl.
        split; [econstructor; [eassumption | constructor] | auto].
      * rewrite Forall_forall in IH.
        apply (IH (c, ch) Hin) in Hf.
        destruct Hf as (rel & nm & x & Hr & Hm & ->).
        exists (c :: rel), nm, x. simpl.
        split; [econstructor; eassumption|].
        split; [assumption|]. rewrite <- app_assoc. reflexivity.
    + intros (rel & nm & x & Hr & Hm & ->).
      destruct rel as [|c rel]; simpl in Hr; inversion Hr; subst.
      * left. eauto.
      * right. exists c, ch. split; [assumption|].
        rewrite Forall_forall in IH. apply (IH (c, ch)); [assumption|].
        exists rel, nm, x. simpl. rewrite <- app_assoc. auto.
Qed.

(** Every path [glob] yields lies below the directory and ends in a name
    that matches the pattern. *)
Lemma glob_shape (fl : flavour) (dir : path) (recursive : bool) (n : node)
      (f : path) :
  In f (FS.glob fl dir recursive n) ->
  exists rel nm, match_msg fl nm = true /\ f = dir ++ rel ++ [nm].
Proof.
  unfold FS.glob.
  destruct (FS.lookup dir n) as [[d|es]|]; try (intros []; fail).
  destruct recursive; intros H.
  - apply rglob_In in H. destruct H as (rel & nm & x & _ & Hm & ->). eauto.
  - apply glob_children_In in H. destruct H as (nm & ch & _ & Hm & ->).
    exists [], nm. auto.
Qed.

(** ** The batch loop *)

Lemma count_app (f : event -> bool) (a b : list event) :
  count f (a ++ b) = count f a + count f b.
Proof. unfold count. rewrite filter_app, length_app. reflexivity. Qed.

Lemma count_single (f : event -> bool) (ev : event) :
  count f [ev] = if f ev then 1 else 0.
Proof. unfold count. simpl. destruct (f ev); reflexivity. Qed.

Lemma count_warning (p : path) :
  count is_success (warning p) = 0 /\ count is_failure (warning p) = 0.
Proof. unfold warning. destruct (negb _); auto. Qed.

Lemma failure_not_success (ev : event) :
  is_failure ev = true -> is_success ev = false.
Proof. destruct ev; simpl; congruence. Qed.

(** For a file that [glob] has found the output path is computed without
    error, and the world is left alone. *)
Lemma batch_output_path_found (input_dir : path) (output_dir : option string)
      (rel : path) (nm : string) (w : world) :
  nm <> "" ->
  batch_output_path input_dir output_dir (input_dir ++ rel ++ [nm]) w =
  (Return (batch_target input_dir output_dir rel nm), w).
Proof.
  intros Hnm. unfold batch_output_path, batch_target.
  destruct (PyStr.truthy_opt output_dir).
  - unfold bind. rewrite relative_to_app. cbn [or_ValueError ret].
    rewrite with_suffix_snoc by assumption. reflexivity.
  - rewrite app_assoc, with_suffix_snoc by assumption.
    rewrite <- app_assoc. reflexivity.
Qed.

Section Batch.

Variable E : extern.
Variable input_dir : path.
Variable output_dir : option string.

Lemma convert_each_post (msg_files : list path) :
  found E input_dir msg_files ->
  forall s0 f0 w,
    wp (convert_each E input_dir output_dir msg_files s0 f0) w
       (batch_post E msg_files s0 f0 w).
Proof.
  induction msg_files as [|msg_file rest IH]; intros Hfound s0 f0 w.
  - apply wp_ret. exists []. simpl.
    rewrite app_nil_r. repeat split; auto. intros p [].
  - destruct (Hfound msg_file (or_introl eq_refl)) as (rel & nm & Hm & ->).
    assert (Hrest : found E input_dir rest) by (intros f Hf; apply Hfound; right; exact Hf).
    specialize (IH Hrest).
    cbn [convert_each]. apply wp_bind. unfold wp at 1.
    rewrite batch_output_path_found by (eapply match_msg_nonempty; eassumption).
    cbn [fst snd]. apply wp_bind.
    eapply wp_conseq; [apply convert_msg_to_eml_post|].
    intros [[out|]|e] w1 Hpost; cbn [convert_post] in Hpost.
    + destruct Hpost as (_ & _ & Hpr & _).
      eapply wp_conseq; [apply IH|].
      intros [[s f]|e] w2; cbn [batch_post]; [|tauto].
      intros (evs & Hpr2 & -> & -> & Hlen & Hall).
      destruct (count_warning (input_dir ++ rel ++ [nm])) as [Hws Hwf].
      exists ((warning (input_dir ++ rel ++ [nm]) ++
               [Converted (input_dir ++ rel ++ [nm]) out]) ++ evs).
      rewrite Hpr2, Hpr, <- !app_assoc, !count_app, Hws, Hwf.
      cbn [count filter is_success is_failure List.length app].
      repeat split; try lia.
      intros p [<- | Hin].
      * exists (Converted (input_dir ++ rel ++ [nm]) out).
        rewrite !in_app_iff. simpl. auto.
      * destruct (Hall p Hin) as (ev & Hev & Hrep).
        exists ev. rewrite !in_app_iff. simpl. auto.
    + destruct Hpost as (pre & ev & Hpr & Hpre & Hfail & Hrep).
      eapply wp_conseq; [apply IH|].
      intros [[s f]|e] w2; cbn [batch_post]; [|tauto].
      intros (evs & Hpr2 & -> & -> & Hlen & Hall).
      destruct (count_warning (input_dir ++ rel ++ [nm])) as [Hws Hwf].
      assert (Hps : count is_success pre = 0 /\ count is_failure pre = 0)
        by (destruct Hpre as [-> | ->]; auto).
      destruct Hps as [Hps Hpf].
      pose proof (failure_not_success _ Hfail) as Hns.
      exists ((pre ++ [ev]) ++ evs).
      rewrite Hpr2, Hpr, <- !app_assoc, !count_app, Hps, Hpf.
      rewrite !count_single, Hns, Hfail.
      repeat split; try (cbn [List.length]; lia).
      intros p [<- | Hin].
      * exists ev. rewrite !in_app_iff. simpl.
        rewrite Hfail, orb_true_r. auto.
      * destruct (Hall p Hin) as (ev' & Hev & Hrep').
        exists ev'. rewrite !in_app_iff. simpl. auto.
    + exact Hpost.
Qed.

End Batch.

(** ** A batch *)

Lemma glob_not_dir (fl : flavour) (dir : path) (recursive : bool) (n : node) :
  FS.is_dir dir n = false -> FS.glob fl dir recursive n = [].
Proof.
  unfold FS.is_dir, FS.glob.
  destruct (FS.lookup dir n) as [[d|es]|]; auto; discriminate.
Qed.

Lemma is_dir_exists (dir : path) (n : node) :
  FS.is_dir dir n = true -> FS.exists_ dir n = true.
Proof.
  unfold FS.is_dir, FS.exists_.
  destruct (FS.lookup dir n) as [[d|es]|]; auto.
Qed.

(** The test at the head of [convert_directory] is the test for a
    directory. *)
Lemma not_found_test (dir : path) (n : node) :
  negb (FS.exists_ dir n) || negb (FS.is_dir dir n) = negb (FS.is_dir dir n).
Proof.
  destruct (FS.is_dir dir n) eqn:Hd.
  - rewrite (is_dir_exists _ _ Hd). reflexivity.
  - apply orb_true_r.
Qed.

(** A batch run, from the path test to the summary: the counts are those
    of the result lines, one line for each file that [glob] finds. *)
Lemma convert_directory_post (E : extern) (input_dir : string)
      (output_dir : option string) (recursive : bool) (w : world) :
  wp (convert_directory E input_dir output_dir recursive) w
     (batch_post E (FS.glob (platform E) (Path input_dir) recursive (fs w))
                 0 0 w).
Proof.
  unfold convert_directory. do 2 wp_step. rewrite not_found_test.
  destruct (FS.is_dir (Path input_dir) (fs w)) eqn:Hdir; cbn [negb].
  - destruct (FS.glob (platform E) (Path input_dir) recursive (fs w))
      as [|f fs'] eqn:Hglob.
    + do 3 wp_step. exists [NoMsgFiles (Path input_dir)].
      cbn. repeat split; auto. intros p [].
    + do 2 wp_step.
      eapply wp_conseq.
      * apply convert_each_post. intros p Hp. rewrite <- Hglob in Hp.
        eapply glob_shape; eassumption.
      * intros [[s fl]|e] w'; cbn [batch_post printed with_printed]; [|tauto].
        intros (evs & Hpr & -> & -> & Hlen & Hall).
        exists (Found (List.length (f :: fs')) :: evs).
        rewrite Hpr, <- app_assoc.
        change (Found (List.length (f :: fs')) :: evs)
          with ([Found (List.length (f :: fs'))] ++ evs).
        rewrite !count_app, !count_single. cbn [is_success is_failure].
        repeat split; auto.
        intros p Hp. destruct (Hall p Hp) as (ev & Hev & Hrep).
        exists ev. rewrite in_app_iff. auto.
  - rewrite glob_not_dir by assumption.
    do 3 wp_step. exists [ErrDirNotFound (Path input_dir)].
    cbn. repeat split; auto. intros p [].
Qed.



(** ** The sample environment *)

Lemma plain_only_Exceptions (fl : flavour) : only_Exceptions (Sample.plain fl).
Proof.
  intros e [p n H | p n H | p n em H H' | c H]; simpl in H.
  - destruct n; inversion H; reflexivity.
  - destruct n; discriminate.
  - destruct n; inversion H; subst; discriminate.
  - discriminate.
Qed.

(** ** The tree under [mkdir] and [store] *)

Lemma assoc_set_entry_other (nm nm' : string) (v : node)
      (es : list (string * node)) :
  nm' <> nm -> FS.assoc nm' (FS.set_entry nm v es) = FS.assoc nm' es.
Proof.
  intros Hne. induction es as [|[k x] es IH]; simpl.
  - destruct (String.eqb nm nm') eqn:He; [|reflexivity].
    apply String.eqb_eq in He. congruence.
  - destruct (String.eqb k nm) eqn:Hk; simpl.
    + apply String.eqb_eq in Hk. subst k.
      destruct (String.eqb nm nm') eqn:He; [|reflexivity].
      apply String.eqb_eq in He. congruence.
    + rewrite IH. reflexivity.
Qed.

Lemma kept_refl (x : node) : kept x x.
Proof. destruct x; simpl; eauto. Qed.

Lemma kept_trans (x y z : node) : kept x y -> kept y z -> kept x z.
Proof.
  destruct x; simpl.
  - intros ->. simpl. auto.
  - intros [es' ->]. simpl. auto.
Qed.

(** [mkdir] removes nothing and changes no file. *)
Lemma mkdir_kept (p : path) :
  forall n n', FS.mkdir p n = inr n' ->
  forall q x, FS.lookup q n = Some x ->
              exists x', FS.lookup q n' = Some x' /\ kept x x'.
Proof.
  induction p as [|c p IH]; intros [d0|es] n' H q x Hq; simpl in H;
    try discriminate.
  - inversion H; subst. exists x. split; [exact Hq | apply kept_refl].
  - destruct q as [|c' q].
    + simpl in Hq. inversion Hq; subst.
      destruct (FS.assoc c es) as [ch|];
        [destruct (FS.mkdir p ch); [discriminate|]|];
        inversion H; subst; simpl; eauto.
    + simpl in Hq.
      destruct (string_dec c' c) as [->|Hne].
      * destruct (FS.assoc c es) as [ch|] eqn:Ha; [|discriminate].
        destruct (FS.mkdir p ch) as [e|ch'] eqn:Hm; [discriminate|].
        inversion H; subst. simpl. rewrite assoc_set_entry.
        eapply IH; eassumption.
      * assert (Hn' : exists v, n' = Dir (FS.set_entry c v es)).
        { destruct (FS.assoc c es) as [ch|];
            [destruct (FS.mkdir p ch); [discriminate|]|];
            inversion H; eauto. }
        destruct Hn' as [v ->]. simpl.
        rewrite assoc_set_entry_other by assumption.
        exists x. split; [exact Hq | apply kept_refl].
Qed.

(** After [mkdir] the directory is there. *)
Lemma mkdir_is_dir (p : path) :
  forall n n', FS.mkdir p n = inr n' -> FS.is_dir p n' = true.
Proof.
  unfold FS.is_dir.
  induction p as [|c p IH]; intros [d0|es] n' H; simpl in H;
    try discriminate.
  - inversion H; reflexivity.
  - destruct (FS.assoc c es) as [ch|] eqn:Ha.
    + destruct (FS.mkdir p ch) as [e|ch'] eqn:Hm; [discriminate|].
      inversion H; subst. simpl. rewrite assoc_set_entry.
      eapply IH; eassumption.
    + inversion H; subst. simpl. rewrite assoc_set_entry.
      clear. induction p as [|c' p IHp]; simpl; [reflexivity|].
      rewrite String.eqb_refl. exact IHp.
Qed.

(** [store] succeeds only where there is a file or nothing. *)
Lemma store_target_file (p : path) (d : bytes) :
  forall n n' x, FS.store p d n = inr n' -> FS.lookup p n = Some x ->
                 exists d0, x = File d0.
Proof.
  induction p as [|c p IH]; intros [d0|es] n' x H Hp; simpl in H, Hp;
    try discriminate.
  - inversion Hp; eauto.
  - destruct (FS.assoc c es) as [ch|]; [|discriminate].
    destruct (FS.store p d ch) as [e|ch'] eqn:Hs; [discriminate|].
    eapply IH; eassumption.
Qed.

(** [store] removes nothing and changes no file but its own. *)
Lemma store_kept (p : path) (d : bytes) :
  forall n n', FS.store p d n = inr n' ->
  forall q x, q <> p -> FS.lookup q n = Some x ->
              exists x', FS.lookup q n' = Some x' /\ kept x x'.
Proof.
  induction p as [|c p IH]; intros [d0|es] n' H q x Hne Hq; simpl in H;
    try discriminate.
  - destruct q; [congruence | discriminate].
  - destruct q as [|c' q].
    + simpl in Hq. inversion Hq; subst.
      destruct (FS.assoc c es) as [ch|];
        [destruct (FS.store p d ch); [discriminate|] | destruct p; [|discriminate]];
        inversion H; subst; simpl; eauto.
    + simpl in Hq.
      destruct (string_dec c' c) as [->|Hc].
      * destruct (FS.assoc c es) as [ch|] eqn:Ha; [|discriminate].
        destruct (FS.store p d ch) as [e|ch'] eqn:Hs; [discriminate|].
        inversion H; subst. simpl. rewrite assoc_set_entry.
        eapply IH; try eassumption. congruence.
      * assert (Hn' : exists v, n' = Dir (FS.set_entry c v es)).
        { destruct (FS.assoc c es) as [ch|];
            [destruct (FS.store p d ch); [discriminate|]
            | destruct p; [|discriminate]];
            inversion H; eauto. }
        destruct Hn' as [v ->]. simpl.
        rewrite assoc_set_entry_other by assumption.
        exists x. split; [exact Hq | apply kept_refl].
Qed.

(** [store] keeps every directory a directory. *)
Lemma store_is_dir (p : path) (d : bytes) (n n' : node) (q : path) :
  FS.store p d n = inr n' -> FS.is_dir q n = true -> FS.is_dir q n' = true.
Proof.
  intros Hs Hd. unfold FS.is_dir in *.
  destruct (FS.lookup q n) as [[d0|es]|] eqn:Hq; try discriminate.
  destruct (list_eq_dec string_dec q p) as [->|Hne].
  - destruct (store_target_file _ _ _ _ _ Hs Hq) as [d0 Hx]. discriminate.
  - destruct (store_kept _ _ _ _ Hs _ _ Hne Hq) as (x' & -> & [es' ->]).
    reflexivity.
Qed.

(** ** The effects of one conversion *)

Section Effects.

Variable E : extern.
Variable msg_path : path.
Variable output_path : option path.
Variable w : world.

Lemma fs_part_untouched : fs_part msg_path output_path w (fs w).
Proof.
  unfold fs_part. destruct (resolved msg_path output_path); [|reflexivity].
  exists None. constructor.
Qed.

(** The [except] clause, entered from a world that has the effects so
    far. *)
Lemma effects_except (w1 : world) (e : exn) :
  printed w1 = printed w ++ warning msg_path ->
  handles w1 = handles w \/ handles w1 = msg_path :: handles w ->
  fs_part msg_path output_path w (fs w1) ->
  if is_Exception e
  then wp (print (ErrConverting msg_path e) ;;; ret None) w1
          (convert_effects msg_path output_path w)
  else convert_effects msg_path output_path w (Raise e) w1.
Proof.
  intros Hpr Hh Hfs. unfold fs_part in Hfs.
  destruct (is_Exception e).
  - do 3 wp_step. unfold convert_effects. cbn [fs handles printed with_printed].
    split; [|split; [exact Hh|]].
    + intros _. exists [ErrConverting msg_path e].
      rewrite Hpr, <- app_assoc. reflexivity.
    + destruct (resolved msg_path output_path); [|exact Hfs].
      destruct Hfs as [wd Hfs]. eauto.
  - unfold convert_effects. split; [|split; [exact Hh|]].
    + intros _. exists []. rewrite app_nil_r. exact Hpr.
    + destruct (resolved msg_path output_path); [|exact Hfs].
      destruct Hfs as [wd Hfs]. eauto.
Qed.

Lemma convert_msg_to_eml_effects :
  wp (convert_msg_to_eml E msg_path output_path) w
     (convert_effects msg_path output_path w).
Proof.
  unfold convert_msg_to_eml.
  apply wp_try. do 2 wp_step.
  destruct (negb (FS.exists_ msg_path (fs w))) eqn:Hex.
  - do 3 wp_step. unfold convert_effects. cbn [fs handles printed with_printed].
    split; [|split; [auto|]].
    + intros Ht. rewrite Ht in Hex. discriminate.
    + pose proof fs_part_untouched as Hfs. unfold fs_part in Hfs.
      destruct (resolved msg_path output_path); [|exact Hfs].
      destruct Hfs as [wd Hfs]. eauto.
  - do 3 wp_step.
    apply wp_extract_msg_Message; cbn [fs handles printed with_printed].
    { intros _. apply effects_except; auto using fs_part_untouched. }
    { intros n e _ _. apply effects_except; auto using fs_part_untouched. }
    intros n r Hn Hd. wp_step.
    assert (Hout : forall w2 Q,
               match resolved msg_path output_path with
               | Some o => Q (Return o) w2
               | None => Q (Raise ValueError) w2
               end ->
               wp (match output_path with
                   | Some o0 => ret o0
                   | None => or_ValueError (with_suffix msg_path ".eml")
                   end) w2 Q).
    { intros w2 Q. unfold resolved. destruct output_path; intros H.
      - apply wp_ret; exact H.
      - apply wp_or_ValueError.
        destruct (with_suffix msg_path ".eml"); exact H. }
    apply Hout; clear Hout.
    destruct (resolved msg_path output_path) as [out|] eqn:Hres.
    2:{ apply effects_except; cbn [fs handles printed];
        auto using fs_part_untouched. }
    assert (Hpart : forall wd n', fs_after out (fs w) wd n' ->
                                  fs_part msg_path output_path w n').
    { intros wd n' H. unfold fs_part. rewrite Hres. eauto. }
    wp_step. unfold mkdir. apply wp_os; cbn [fs handles printed].
    { intros e _. apply effects_except; cbn [fs handles printed];
        eauto using fs_after. }
    { intros e _. apply effects_except; cbn [fs handles printed];
        eauto using fs_after. }
    intros n1 _ Hmk. do 2 wp_step.
    destruct r as [e|email_msg].
    { apply effects_except; cbn [fs handles printed]; eauto using fs_after. }
    wp_step. unfold open_wb. apply wp_os; cbn [fs handles printed].
    { intros e _. apply effects_except; cbn [fs handles printed];
        eauto using fs_after. }
    { intros e _. apply effects_except; cbn [fs handles printed];
        eauto using fs_after. }
    intros n2 _ Hop. do 2 wp_step.
    destruct (as_bytes email_msg) as [e|data].
    { apply effects_except; cbn [fs handles printed]; eauto using fs_after. }
    wp_step. apply wp_write; cbn [fs handles printed].
    { intros e n3 _ Hpa. apply effects_except; cbn [fs handles printed];
        eauto using fs_after. }
    { intros e d _. apply effects_except; cbn [fs handles printed];
        eauto using fs_after. }
    intros n3 _ Hwr. do 5 wp_step.
    cbn [msg_source remove_one].
    destruct (list_eq_dec string_dec msg_path msg_path) as [_|Hne];
      [|contradiction].
    unfold convert_effects. cbn [fs handles printed with_printed].
    rewrite Hres. split; [|split; [auto|]].
    + intros _. exists [Converted msg_path out].
      rewrite <- app_assoc. reflexivity.
    + exists (Some data). split; [|eauto].
      eapply fs_written; eassumption.
Qed.

Lemma convert_msg_to_eml_effects_run (o : outcome (option path))
      (w' : world) :
  convert_msg_to_eml E msg_path output_path w = (o, w') ->
  convert_effects msg_path output_path w o w'.
Proof. apply wp_run, convert_msg_to_eml_effects. Qed.

End Effects.

(** ** What a conversion leaves alone *)

Lemma fs_after_kept (out : path) (n n' : node) (wd : option bytes) :
  fs_after out n wd n' ->
  forall q x, q <> out -> FS.lookup q n = Some x ->
              exists x', FS.lookup q n' = Some x' /\ kept x x'.
Proof.
  intros Hafter q x Hne Hq.
  destruct Hafter as [|n1 Hmk|n1 n2 Hmk Hop|n1 n2 n3 d Hmk Hop Hwr
                     |n1 n2 n3 d Hmk Hop Hwr].
  - exists x. split; [exact Hq | apply kept_refl].
  - eapply mkdir_kept; eassumption.
  - destruct (mkdir_kept _ _ _ Hmk _ _ Hq) as (x1 & Hq1 & Hk1).
    destruct (store_kept _ _ _ _ Hop _ _ Hne Hq1) as (x2 & Hq2 & Hk2).
    exists x2. split; [exact Hq2 | eapply kept_trans; eassumption].
  - destruct (mkdir_kept _ _ _ Hmk _ _ Hq) as (x1 & Hq1 & Hk1).
    destruct (store_kept _ _ _ _ Hop _ _ Hne Hq1) as (x2 & Hq2 & Hk2).
    destruct (store_kept _ _ _ _ Hwr _ _ Hne Hq2) as (x3 & Hq3 & Hk3).
    exists x3. split; [exact Hq3|].
    eapply kept_trans; [|eassumption]. eapply kept_trans; eassumption.
  - destruct (mkdir_kept _ _ _ Hmk _ _ Hq) as (x1 & Hq1 & Hk1).
    destruct (store_kept _ _ _ _ Hop _ _ Hne Hq1) as (x2 & Hq2 & Hk2).
    destruct (store_kept _ _ _ _ Hwr _ _ Hne Hq2) as (x3 & Hq3 & Hk3).
    exists x3. split; [exact Hq3|].
    eapply kept_trans; [|eassumption]. eapply kept_trans; eassumption.
Qed.

Lemma fs_after_exists (out : path) (n n' : node) (wd : option bytes) :
  fs_after out n wd n' ->
  forall q, FS.exists_ q n = true -> FS.exists_ q n' = true.
Proof.
  intros Hafter q Hq. unfold FS.exists_ in *.
  destruct (FS.lookup q n) as [x|] eqn:Hl; [|discriminate].
  destruct (list_eq_dec string_dec q out) as [->|Hne].
  - destruct Hafter as [|n1 Hmk|n1 n2 Hmk Hop|n1 n2 n3 d Hmk Hop Hwr
                       |n1 n2 n3 d Hmk Hop Hwr].
    + rewrite Hl. reflexivity.
    + destruct (mkdir_kept _ _ _ Hmk _ _ Hl) as (x1 & -> & _). reflexivity.
    + rewrite (store_lookup _ _ _ _ Hop). reflexivity.
    + rewrite (store_lookup _ _ _ _ Hwr). reflexivity.
    + rewrite (store_lookup _ _ _ _ Hwr). reflexivity.
  - destruct (fs_after_kept _ _ _ _ Hafter _ _ Hne Hl) as (x' & -> & _).
    reflexivity.
Qed.



Lemma fs_after_parent (out : path) (n n' : node) (d : bytes) :
  fs_after out n (Some d) n' -> FS.is_dir (parent out) n' = true.
Proof.
  intros Hafter. inversion Hafter as [| | | |n1 n2 n3 d' Hmk Hop Hwr]; subst.
  eapply store_is_dir; [eassumption|].
  eapply store_is_dir; [eassumption|].
  eapply mkdir_is_dir; eassumption.
Qed.

(** ** The errors of one file *)

(** Once a file is open, the tree does not refuse a write to it. *)
Lemma store_again (p : path) (d d' : bytes) :
  forall n n', FS.store p d n = inr n' ->
               exists n'', FS.store p d' n' = inr n''.
Proof.
  induction p as [|c p IH]; intros [d0|es] n' H; simpl in H;
    try discriminate.
  - inversion H; subst. simpl. eauto.
  - destruct (FS.assoc c es) as [ch|] eqn:Ha.
    + destruct (FS.store p d ch) as [e|ch'] eqn:Hs; [discriminate|].
      inversion H; subst. simpl. rewrite assoc_set_entry.
      destruct (IH _ _ Hs) as [ch'' ->]. eauto.
    + destruct p; [|discriminate]. inversion H; subst. simpl.
      rewrite assoc_set_entry. simpl. eauto.
Qed.

(** The [except] clause: an [Exception] is printed and turned into
    [None], anything else goes through. *)
Lemma wp_handler (msg_path : path)
      (Q : outcome (option path) -> world -> Prop) (w1 : world) (e : exn) :
  (is_Exception e = true ->
   Q (Return None) (with_printed w1 [ErrConverting msg_path e])) ->
  (is_Exception e = false -> Q (Raise e) w1) ->
  if is_Exception e
  then wp (print (ErrConverting msg_path e) ;;; ret None) w1 Q
  else Q (Raise e) w1.
Proof.
  intros H1 H2. destruct (is_Exception e); [|auto].
  do 3 wp_step. auto.
Qed.

(** A run is determined by a postcondition that fixes it. *)
Lemma wp_eq (A : Type) (m : M A) (w : world) (o : outcome A) (w' : world) :
  wp m w (fun o1 w1 => o1 = o /\ w1 = w') -> m w = (o, w').
Proof.
  unfold wp. destruct (m w) as [o1 w1]. simpl. intros [-> ->]. reflexivity.
Qed.

Ltac failed :=
  apply wp_handler; [intros _ _ | let H := fresh in intros _ H; discriminate H].

Section Errors.

Variable E : extern.
Variable msg_path : path.
Variable output_path : option path.
Variable w : world.

(** Whenever a conversion returns [None], the file has run into one of
    the errors of [per_file_error]. *)
Lemma convert_msg_to_eml_None :
  wp (convert_msg_to_eml E msg_path output_path) w
     (fun o _ => o = Return None ->
                 per_file_error E msg_path output_path w).
Proof.
  unfold convert_msg_to_eml.
  apply wp_try. do 2 wp_step.
  destruct (negb (FS.exists_ msg_path (fs w))) eqn:Hex.
  - do 3 wp_step. intros _. apply error_not_found.
    apply negb_true_iff in Hex. exact Hex.
  - apply negb_false_iff in Hex. do 3 wp_step.
    apply wp_extract_msg_Message; cbn [fs handles printed with_printed].
    { intros Hnone. unfold FS.exists_ in Hex. rewrite Hnone in Hex.
      discriminate. }
    { intros n e Hn He. failed. eapply error_decode; eassumption. }
    intros n r Hn Hd. wp_step.
    assert (Hout : forall w2 Q,
               match resolved msg_path output_path with
               | Some o => Q (Return o) w2
               | None => Q (Raise ValueError) w2
               end ->
               wp (match output_path with
                   | Some o0 => ret o0
                   | None => or_ValueError (with_suffix msg_path ".eml")
                   end) w2 Q).
    { intros w2 Q. unfold resolved. destruct output_path; intros H.
      - apply wp_ret; exact H.
      - apply wp_or_ValueError.
        destruct (with_suffix msg_path ".eml"); exact H. }
    apply Hout; clear Hout.
    destruct (resolved msg_path output_path) as [out|] eqn:Hres.
    2:{ failed. apply error_no_name. exact Hres. }
    wp_step. unfold mkdir. apply wp_os; cbn [fs handles printed].
    { intros e He. failed. eapply error_mkdir; eauto. }
    { intros e He. failed. eapply error_mkdir; eauto. }
    intros n1 Hfmk Hmk. do 2 wp_step.
    destruct r as [e|email_msg];
      [failed; eapply error_convert; eassumption|].
    wp_step. unfold open_wb. apply wp_os; cbn [fs handles printed].
    { intros e He. failed. eapply error_open; eassumption. }
    { intros e He. failed. eapply error_open_tree; eassumption. }
    intros n2 Hfop Hop. do 2 wp_step.
    destruct (as_bytes email_msg) as [e|data] eqn:Hdata;
      [failed; eapply error_serialize; eassumption|].
    wp_step. apply wp_write; cbn [fs handles printed].
    { intros e n3 He _. failed. eapply error_write; eassumption. }
    { intros e d He. destruct (store_again _ [] d _ _ Hop) as [n3 Hn3].
      congruence. }
    intros n3 Hfwr Hwr. do 5 wp_step. intros H. discriminate H.
Qed.

End Errors.

(** Under an environment that raises [Exception]s only, a conversion
    returns. *)
Lemma convert_msg_to_eml_returns (E : extern) (msg_path : path)
      (output_path : option path) (w : world) :
  only_Exceptions E ->
  exists r w',
    convert_msg_to_eml E msg_path output_path w = (Return r, w') /\
    convert_post E msg_path output_path w (Return r) w'.
Proof.
  intros HE.
  destruct (convert_msg_to_eml E msg_path output_path w) as [[r|e] w'] eqn:Hrun;
    pose proof (convert_msg_to_eml_run _ _ _ _ _ _ Hrun) as Hpost.
  - eauto.
  - destruct Hpost as [Hne Hraises]. apply HE in Hraises. congruence.
Qed.

(** A per-file error excludes a successful result. *)
Lemma per_file_error_not_Some (E : extern) (msg_path : path)
      (output_path : option path) (w w' : world) (out : path) :
  per_file_error E msg_path output_path w ->
  convert_msg_to_eml E msg_path output_path w <> (Return (Some out), w').
Proof.
  intros Herr Hrun.
  pose proof (convert_msg_to_eml_effects_run _ _ _ _ _ _ Hrun) as Heff.
  apply convert_msg_to_eml_run in Hrun.
  destruct Hrun as (Hres & _ & _ & (n & em & data & Hn & Hd & Hb & _) &
                    _ & Hfm & Hfo & Hfw).
  destruct Heff as (_ & _ & Hfs). rewrite Hres in Hfs.
  destruct Hfs as (wd & Hafter & d & ->).
  inversion Hafter as [| | | |m1 m2 m3 d' Hmk Hop Hwr]; subst.
  destruct Herr as [Hex | n' e Hn' Hd' | n' e Hn' Hd' | n' em' e Hn' Hd' Hb'
                    | Hno | out' e Hres' [Hmk' | Hf'] | out' e Hres' Hf'
                    | out' k1 e Hres' Hk1 Hst | out' e Hres' Hf'];
    try (unfold FS.exists_ in Hex; rewrite Hn in Hex; discriminate);
    try congruence.
Qed.

(** The errors of [per_file_error] are exactly the cases in which a
    conversion returns [None]. *)
Lemma per_file_error_iff (E : extern) (msg_path : path)
      (output_path : option path) (w : world) :
  only_Exceptions E ->
  per_file_error E msg_path output_path w <->
  exists w', convert_msg_to_eml E msg_path output_path w = (Return None, w').
Proof.
  intros HE. split.
  - intros Herr.
    destruct (convert_msg_to_eml_returns E msg_path output_path w HE)
      as ([out|] & w' & Hrun & _); [|eauto].
    exfalso. eapply per_file_error_not_Some; eassumption.
  - intros [w' Hrun].
    apply (wp_run _ _ _ (convert_msg_to_eml_None E msg_path output_path w)
                  _ _ Hrun).
    reflexivity.
Qed.

(** ** The calls of a batch *)

Lemma successes_cons (c : call) (cs : list call) :
  successes (c :: cs) =
  (if is_path (call_result c) then 1 else 0) + successes cs.
Proof.
  unfold successes. simpl. destruct (is_path (call_result c)); reflexivity.
Qed.

Lemma failures_cons (c : call) (cs : list call) :
  failures (c :: cs) =
  (if is_path (call_result c) then 0 else 1) + failures cs.
Proof.
  unfold failures. simpl. destruct (is_path (call_result c)); reflexivity.
Qed.

Lemma successes_failures (cs : list call) :
  successes cs + failures cs = List.length cs.
Proof.
  induction cs as [|c cs IH]; [reflexivity|].
  rewrite successes_cons, failures_cons. simpl.
  destruct (is_path (call_result c)); lia.
Qed.

Section Calls.

Variable E : extern.
Variable input_dir : path.
Variable output_dir : option string.

(** The loop calls [convert_msg_to_eml] once for each file, in the order
    of the files, with the output path of lines 93 to 98, each call in
    the world the call before has left, and it counts a success for each
    call that returns a path and a failure for each that returns
    [None]. *)
Lemma convert_each_calls (msg_files : list path) :
  found E input_dir msg_files ->
  forall s0 f0 w,
    wp (convert_each E input_dir output_dir msg_files s0 f0) w
       (fun o w' =>
          match o with
          | Return (s, f) =>
              exists calls,
                map call_file calls = msg_files /\
                in_turn E calls w w' /\
                s = s0 + successes calls /\
                f = f0 + failures calls /\
                Forall (sent input_dir output_dir) calls
          | Raise _ => True
          end).
Proof.
  induction msg_files as [|msg_file rest IH]; intros Hfound s0 f0 w.
  - apply wp_ret. exists []. unfold successes, failures. simpl.
    repeat split; auto; constructor.
  - destruct (Hfound msg_file (or_introl eq_refl)) as (rel & nm & Hm & ->).
    assert (Hrest : found E input_dir rest)
      by (intros f Hf; apply Hfound; right; exact Hf).
    specialize (IH Hrest).
    pose proof (match_msg_nonempty _ _ Hm) as Hnm.
    cbn [convert_each]. apply wp_bind. unfold wp at 1.
    rewrite batch_output_path_found by exact Hnm.
    cbn [fst snd]. apply wp_bind. unfold wp at 1.
    destruct (convert_msg_to_eml E (input_dir ++ rel ++ [nm])
                (Some (batch_target input_dir output_dir rel nm)) w)
      as [[r|e] w1] eqn:Hrun; cbn [fst snd]; [|exact I].
    assert (Hc : forall s1 f1,
               s1 = s0 + (if is_path r then 1 else 0) ->
               f1 = f0 + (if is_path r then 0 else 1) ->
               wp (convert_each E input_dir output_dir rest s1 f1) w1
                  (fun o w' =>
                     match o with
                     | Return (s, f) =>
                         exists calls,
                           map call_file calls =
                             (input_dir ++ rel ++ [nm]) :: rest /\
                           in_turn E calls w w' /\
                           s = s0 + successes calls /\
                           f = f0 + failures calls /\
                           Forall (sent input_dir output_dir) calls
                     | Raise _ => True
                     end)).
    { intros s1 f1 -> ->. eapply wp_conseq; [apply IH|].
      intros [[s f]|e] w2; [|auto].
      intros (calls & Hmap & Hturn & -> & -> & Hsent).
      exists ({| call_file := input_dir ++ rel ++ [nm];
                 call_output := batch_target input_dir output_dir rel nm;
                 call_result := r |} :: calls).
      rewrite successes_cons, failures_cons. cbn [map call_file call_result].
      split; [rewrite Hmap; reflexivity|].
      split; [eapply turn_next; [exact Hrun | exact Hturn]|].
      split; [lia|]. split; [lia|].
      constructor; [|exact Hsent]. exists rel, nm. auto. }
    destruct r as [out|]; apply Hc; simpl; lia.
Qed.

End Calls.

(** The same for a batch run: after the one line it prints first, the
    files [glob] has found are converted in turn. *)
Lemma convert_directory_calls (E : extern) (input_dir : string)
      (output_dir : option string) (recursive : bool) (w : world) :
  wp (convert_directory E input_dir output_dir recursive) w
     (fun o w' =>
        match o with
        | Return (s, f) =>
            exists ev0 calls,
              map call_file calls =
                FS.glob (platform E) (Path input_dir) recursive (fs w) /\
              in_turn E calls (with_printed w [ev0]) w' /\
              s = successes calls /\
              f = failures calls /\
              Forall (sent (Path input_dir) output_dir) calls
        | Raise _ => True
        end).
Proof.
  unfold convert_directory. do 2 wp_step. rewrite not_found_test.
  destruct (FS.is_dir (Path input_dir) (fs w)) eqn:Hdir; cbn [negb].
  - destruct (FS.glob (platform E) (Path input_dir) recursive (fs w))
      as [|f fs'] eqn:Hglob.
    + do 3 wp_step. exists (NoMsgFiles (Path input_dir)), [].
      repeat split; constructor.
    + do 2 wp_step.
      eapply wp_conseq.
      * apply convert_each_calls. intros p Hp. rewrite <- Hglob in Hp.
        eapply glob_shape; eassumption.
      * intros [[s fl]|e] w'; [|auto].
        intros (calls & Hmap & Hturn & -> & -> & Hsent).
        exists (Found (List.length (f :: fs'))), calls. auto.
  - rewrite glob_not_dir by assumption.
    do 3 wp_step. exists (ErrDirNotFound (Path input_dir)), [].
    repeat split; constructor.
Qed.

(** What exists before calls made in turn exists after them. *)
Lemma in_turn_exists (E : extern) (calls : list call) (w w' : world)
      (q : path) :
  in_turn E calls w w' ->
  FS.exists_ q (fs w) = true -> FS.exists_ q (fs w') = true.
Proof.
  intros Hturn.
  induction Hturn as [w|c cs w w1 w' Hrun _ IH]; intros Hq; [exact Hq|].
  apply IH. apply convert_msg_to_eml_effects_run in Hrun.
  destruct Hrun as (_ & _ & Hfs). cbn [resolved] in Hfs.
  destruct Hfs as (wd & Hafter & _). eapply fs_after_exists; eassumption.
Qed.

(** A call that has returned a path has returned its output path, and
    the file is there when the calls are over. *)
Lemma in_turn_written (E : extern) (calls : list call) (w w' : world) :
  in_turn E calls w w' ->
  forall c out,
    In c calls -> call_result c = Some out ->
    out = call_output c /\ FS.exists_ out (fs w') = true.
Proof.
  intros Hturn.
  induction Hturn as [w|c0 cs w w1 w' Hrun Hrest IH]; intros c out Hin Hres;
    [destruct Hin|].
  destruct Hin as [<-|Hin]; [|eapply IH; eassumption].
  rewrite Hres in Hrun. apply convert_msg_to_eml_run in Hrun.
  destruct Hrun as (Hr & _ & _ & (n & em & data & _ & _ & _ & Hl) & _).
  cbn [resolved] in Hr. inversion Hr; subst. split; [reflexivity|].
  eapply in_turn_exists; [exact Hrest|].
  unfold FS.exists_. rewrite Hl. reflexivity.
Qed.

(** The output path of a call, in the words of [pathlib]: with an output
    directory that is a non-empty string, that directory joined with the
    path of the file relative to the input directory, [.eml] put for the
    extension; without one, the path of the file with [.eml] put for the
    extension. *)
Lemma sent_output_dir (input_dir : path) (d : string) (c : call) :
  d <> "" -> sent input_dir (Some d) c ->
  exists rel eml,
    relative_to (call_file c) input_dir = Some rel /\
    with_suffix rel ".eml" = Some eml /\
    call_output c = joinpath (Path d) eml.
Proof.
  intros Hd (rel & nm & Hnm & Hf & Ho).
  exists (rel ++ [nm]), (rel ++ [with_suffix_name nm ".eml"]).
  rewrite Hf, Ho. split; [apply relative_to_app|].
  split; [apply with_suffix_snoc; exact Hnm|].
  unfold batch_target, joinpath. cbn [PyStr.truthy_opt].
  apply truthy_nonempty in Hd. rewrite Hd. reflexivity.
Qed.

Lemma sent_beside (input_dir : path) (output_dir : option string) (c : call) :
  PyStr.truthy_opt output_dir = false -> sent input_dir output_dir c ->
  with_suffix (call_file c) ".eml" = Some (call_output c).
Proof.
  intros Hd (rel & nm & Hnm & Hf & Ho).
  rewrite Hf, Ho. unfold batch_target. rewrite Hd.
  rewrite !app_assoc. apply with_suffix_snoc. exact Hnm.
Qed.

(** A batch run in an environment that raises [Exception]s only: it
    returns, and both accounts of it hold, the one by the lines printed
    and the one by the calls made. *)
Lemma convert_directory_run (E : extern) (input_dir : string)
      (output_dir : option string) (recursive : bool) (w : world) :
  only_Exceptions E ->
  exists s f w' evs ev0 calls,
    convert_directory E input_dir output_dir recursive w =
      (Return (s, f), w') /\
    batch_post E (FS.glob (platform E) (Path input_dir) recursive (fs w))
               0 0 w (Return (s, f)) w' /\
    printed w' = printed w ++ evs /\
    s = count is_success evs /\
    f = count is_failure evs /\
    map call_file calls =
      FS.glob (platform E) (Path input_dir) recursive (fs w) /\
    in_turn E calls (with_printed w [ev0]) w' /\
    s = successes calls /\
    f = failures calls /\
    Forall (sent (Path input_dir) output_dir) calls.
Proof.
  intros HE.
  pose proof (convert_directory_post E input_dir output_dir recursive w)
    as Hpost.
  pose proof (convert_directory_calls E input_dir output_dir recursive w)
    as Hcalls.
  unfold wp in Hpost, Hcalls.
  destruct (convert_directory E input_dir output_dir recursive w)
    as [[[s f]|e] w']; cbn [fst snd] in Hpost, Hcalls.
  - pose proof Hpost as Hpost'. cbn [batch_post] in Hpost'.
    destruct Hpost' as (evs & Hpr & Hs & Hf & _).
    destruct Hcalls as (ev0 & calls & Hmap & Hturn & Hs' & Hf' & Hsent).
    exists s, f, w', evs, ev0, calls. simpl in Hs, Hf. auto 12.
  - destruct Hpost as [Hne Hraises]. apply HE in Hraises. congruence.
Qed.

(** * The claims *)

(** ** A missing input file *)

(** The run of [convert_msg_to_eml] on a path that does not exist. *)
Lemma convert_missing (E : extern) (msg_path : path)
      (output_path : option path) (w : world) :
  FS.exists_ msg_path (fs w) = false ->
  convert_msg_to_eml E msg_path output_path w =
  (Return None, with_printed w [ErrFileNotFound msg_path]).
Proof.
  intros Hex. unfold convert_msg_to_eml, try_except_Exception, bind, get_fs.
  rewrite Hex. reflexivity.
Qed.

(** C6: for an input path that does not exist, [convert_msg_to_eml]
    returns [None], the one line it prints is the not-found error for
    that path, and no file comes into being: every path that was absent
    before the call, the output path among them, is absent after it. *)
Theorem C6_missing_input_fails (E : extern) (msg_path : path)
        (output_path : option path) (w : world) :
  FS.exists_ msg_path (fs w) = false ->
  exists w',
    convert_msg_to_eml E msg_path output_path w = (Return None, w') /\
    printed w' = printed w ++ [ErrFileNotFound msg_path] /\
    forall out, FS.exists_ out (fs w) = false ->
                FS.exists_ out (fs w') = false.
Proof.
  intros Hex. eexists. split; [apply convert_missing; exact Hex|].
  split; [reflexivity | auto].
Qed.

Lemma C6_missing_input_fails_witness :
  FS.exists_ ["gone.msg"] (fs (Sample.start Sample.single_tree)) = false /\
  exists w',
    convert_msg_to_eml (Sample.plain Posix) ["gone.msg"] None
                       (Sample.start Sample.single_tree) = (Return None, w') /\
    printed w' =
      printed (Sample.start Sample.single_tree) ++
      [ErrFileNotFound ["gone.msg"]] /\
    forall out,
      FS.exists_ out (fs (Sample.start Sample.single_tree)) = false ->
      FS.exists_ out (fs w') = false.
Proof.
  split; [reflexivity|].
  apply (C6_missing_input_fails (Sample.plain Posix) ["gone.msg"] None
                                (Sample.start Sample.single_tree)).
  reflexivity.
Defined.

(** C10: for an input path that does not exist, [convert_msg_to_eml]
    leaves the file system as it was, whatever the output path: the
    tree after the call is the tree before it, so no file is written and
    no directory is made, and the decoder is never opened. *)
Theorem C10_missing_input_frame (E : extern) (msg_path : path)
        (output_path : option path) (w : world) :
  FS.exists_ msg_path (fs w) = false ->
  fs (snd (convert_msg_to_eml E msg_path output_path w)) = fs w /\
  handles (snd (convert_msg_to_eml E msg_path output_path w)) = handles w.
Proof.
  intros Hex. rewrite convert_missing by exact Hex. split; reflexivity.
Qed.

Lemma C10_missing_input_frame_witness :
  FS.exists_ ["gone.msg"] (fs (Sample.start Sample.single_tree)) = false /\
  fs (snd (convert_msg_to_eml (Sample.plain Posix) ["gone.msg"]
                              (Some ["new"; "deep"; "out.eml"])
                              (Sample.start Sample.single_tree))) =
  fs (Sample.start Sample.single_tree) /\
  handles (snd (convert_msg_to_eml (Sample.plain Posix) ["gone.msg"]
                                   (Some ["new"; "deep"; "out.eml"])
                                   (Sample.start Sample.single_tree))) =
  handles (Sample.start Sample.single_tree).
Proof.
  split; [reflexivity|].
  apply (C10_missing_input_frame (Sample.plain Posix) ["gone.msg"]
                                 (Some ["new"; "deep"; "out.eml"])
                                 (Sample.start Sample.single_tree)).
  reflexivity.
Defined.

(** ** Counting and fault isolation *)

(** C1: a batch run returns a pair [(s, f)] whose sum is the number of
    files [glob] has found.  Every one of these files is counted once:
    the run has called [convert_msg_to_eml] once for each of them, in
    their order, each call in the world the call before has left
    ([map call_file calls] is the list [glob] has returned, and the calls
    are made [in_turn]); [s] is the number of the calls that have
    returned a path and [f] the number of those that have returned
    [None].  (Each call gets the output path of lines 93 to 98: [sent].)
    The two counts are also the numbers of success lines and of error
    lines printed.  The environment raises [Exception]s only, so that the
    run does return. *)
Theorem C1_counts_add_up (E : extern) (input_dir : string)
        (output_dir : option string) (recursive : bool) (w : world) :
  only_Exceptions E ->
  exists s f w' evs ev0 calls,
    convert_directory E input_dir output_dir recursive w =
      (Return (s, f), w') /\
    s + f = List.length
              (FS.glob (platform E) (Path input_dir) recursive (fs w)) /\
    map call_file calls =
      FS.glob (platform E) (Path input_dir) recursive (fs w) /\
    Forall (sent (Path input_dir) output_dir) calls /\
    in_turn E calls (with_printed w [ev0]) w' /\
    s = successes calls /\
    f = failures calls /\
    printed w' = printed w ++ evs /\
    s = count is_success evs /\
    f = count is_failure evs.
Proof.
  intros HE.
  destruct (convert_directory_run E input_dir output_dir recursive w HE)
    as (s & f & w' & evs & ev0 & calls & Hrun & _ & Hpr & Hs & Hf &
        Hmap & Hturn & Hs' & Hf' & Hsent).
  exists s, f, w', evs, ev0, calls.
  repeat split; try assumption.
  rewrite Hs', Hf', successes_failures, <- Hmap. symmetry. apply length_map.
Qed.

Lemma C1_counts_add_up_witness :
  only_Exceptions (Sample.plain Posix) /\
  fst (convert_directory (Sample.plain Posix) "inbox" None false
                         (Sample.start Sample.mixed_tree)) = Return (2, 1) /\
  exists s f w' evs ev0 calls,
    convert_directory (Sample.plain Posix) "inbox" None false
                      (Sample.start Sample.mixed_tree) =
      (Return (s, f), w') /\
    s + f = List.length
              (FS.glob (platform (Sample.plain Posix)) (Path "inbox") false
                       (fs (Sample.start Sample.mixed_tree))) /\
    map call_file calls =
      FS.glob (platform (Sample.plain Posix)) (Path "inbox") false
              (fs (Sample.start Sample.mixed_tree)) /\
    Forall (sent (Path "inbox") None) calls /\
    in_turn (Sample.plain Posix) calls
            (with_printed (Sample.start Sample.mixed_tree) [ev0]) w' /\
    s = successes calls /\
    f = failures calls /\
    printed w' = printed (Sample.start Sample.mixed_tree) ++ evs /\
    s = count is_success evs /\
    f = count is_failure evs.
Proof.
  split; [apply plain_only_Exceptions|].
  split; [reflexivity|].
  apply (C1_counts_add_up (Sample.plain Posix) "inbox" None false
                          (Sample.start Sample.mixed_tree)).
  apply plain_only_Exceptions.
Defined.

(** Whenever a batch run returns, in any environment, the counts add up
    to the number of files found. *)
Lemma convert_directory_sum (E : extern) (input_dir : string)
      (output_dir : option string) (recursive : bool) (w w' : world)
      (s f : nat) :
  convert_directory E input_dir output_dir recursive w = (Return (s, f), w') ->
  s + f = List.length (FS.glob (platform E) (Path input_dir) recursive (fs w)).
Proof.
  intros Hrun. pose proof (convert_directory_post E input_dir output_dir
                                                   recursive w) as Hpost.
  apply (wp_run _ _ _ Hpost) in Hrun.
  destruct Hrun as (evs & _ & -> & -> & Hlen & _). exact Hlen.
Qed.

(** C5: in an environment that raises [Exception]s only (decode errors
    and I/O errors are: [except Exception] does not catch an interrupt
    or an exit request),
    - a call of [convert_msg_to_eml] returns, it never raises;
    - it returns [None] exactly when the file runs into an error: the
      input is missing, the decoder raises on opening, converting or
      serializing, or the output directory cannot be made or the output
      file cannot be opened or written, be it by the state of the tree
      (the output path is a directory) or by a fault of the system;
    - a batch run returns as well, and has called [convert_msg_to_eml]
      for every file found, in order, with the output path of lines 93
      to 98, each call in the world the call before has left, whatever
      the calls before have returned; there is a result line for each
      file. *)
Theorem C5_errors_are_contained (E : extern) :
  only_Exceptions E ->
  (forall msg_path output_path w,
      exists r w',
        convert_msg_to_eml E msg_path output_path w = (Return r, w')) /\
  (forall msg_path output_path w,
      per_file_error E msg_path output_path w <->
      exists w',
        convert_msg_to_eml E msg_path output_path w = (Return None, w')) /\
  (forall input_dir output_dir recursive w,
      exists sf w' evs ev0 calls,
        convert_directory E input_dir output_dir recursive w =
          (Return sf, w') /\
        map call_file calls =
          FS.glob (platform E) (Path input_dir) recursive (fs w) /\
        Forall (sent (Path input_dir) output_dir) calls /\
        in_turn E calls (with_printed w [ev0]) w' /\
        printed w' = printed w ++ evs /\
        forall p,
          In p (FS.glob (platform E) (Path input_dir) recursive (fs w)) ->
          exists ev, In ev evs /\ reports ev = Some p /\
                     (is_success ev || is_failure ev) = true).
Proof.
  intros HE. split; [|split].
  - intros msg_path output_path w.
    destruct (convert_msg_to_eml_returns E msg_path output_path w HE)
      as (r & w' & Hrun & _). eauto.
  - intros msg_path output_path w. apply per_file_error_iff. exact HE.
  - intros input_dir output_dir recursive w.
    destruct (convert_directory_run E input_dir output_dir recursive w HE)
      as (s & f & w' & evs & ev0 & calls & Hrun & Hpost & Hpr & _ & _ &
          Hmap & Hturn & _ & _ & Hsent).
    destruct Hpost as (evs' & Hpr' & _ & _ & _ & Hall).
    assert (evs' = evs) by (rewrite Hpr in Hpr'; eapply app_inv_head; eauto).
    subst evs'.
    exists (s, f), w', evs, ev0, calls. auto 8.
Qed.

Lemma C5_errors_are_contained_witness :
  only_Exceptions (Sample.plain Posix) /\
  (exists r w',
      convert_msg_to_eml (Sample.plain Posix) ["a.msg"] (Some ["a.msg"])
                         (Sample.start Sample.single_tree) = (Return r, w')) /\
  (per_file_error (Sample.plain Posix) ["gone.msg"] None
                  (Sample.start Sample.single_tree) /\
   exists w',
     convert_msg_to_eml (Sample.plain Posix) ["gone.msg"] None
                        (Sample.start Sample.single_tree) =
     (Return None, w')) /\
  (per_file_error (Sample.plain Posix) ["a.msg"] (Some ["out"])
                  (Sample.start Sample.outdir_tree) /\
   exists w',
     convert_msg_to_eml (Sample.plain Posix) ["a.msg"] (Some ["out"])
                        (Sample.start Sample.outdir_tree) =
     (Return None, w')) /\
  (let run1 := convert_directory (Sample.plain Posix) "inbox" None false
                                 (Sample.start Sample.mixed_tree) in
   fst run1 = Return (2, 1) /\
   FS.exists_ ["inbox"; "b.eml"] (fs (snd run1)) = false /\
   FS.exists_ ["inbox"; "c.eml"] (fs (snd run1)) = true /\
   exists sf w' evs ev0 calls,
     convert_directory (Sample.plain Posix) "inbox" None false
                       (Sample.start Sample.mixed_tree) = (Return sf, w') /\
     map call_file calls =
       FS.glob (platform (Sample.plain Posix)) (Path "inbox") false
               (fs (Sample.start Sample.mixed_tree)) /\
     Forall (sent (Path "inbox") None) calls /\
     in_turn (Sample.plain Posix) calls
             (with_printed (Sample.start Sample.mixed_tree) [ev0]) w' /\
     printed w' = printed (Sample.start Sample.mixed_tree) ++ evs /\
     forall p,
       In p (FS.glob (platform (Sample.plain Posix)) (Path "inbox") false
                     (fs (Sample.start Sample.mixed_tree))) ->
       exists ev, In ev evs /\ reports ev = Some p /\
                  (is_success ev || is_failure ev) = true).
Proof.
  split; [apply plain_only_Exceptions|].
  destruct (C5_errors_are_contained (Sample.plain Posix)
                                    (plain_only_Exceptions Posix))
    as (Hret & Herr & Hbatch).
  assert (Hgone : per_file_error (Sample.plain Posix) ["gone.msg"] None
                                 (Sample.start Sample.single_tree))
    by (apply error_not_found; reflexivity).
  assert (Hout : per_file_error (Sample.plain Posix) ["a.msg"] (Some ["out"])
                                (Sample.start Sample.outdir_tree))
    by (apply (error_open_tree _ _ _ _ ["out"] Sample.outdir_tree
                               IsADirectoryError); reflexivity).
  split; [apply Hret|].
  split; [split; [exact Hgone | apply Herr; exact Hgone]|].
  split; [split; [exact Hout | apply Herr; exact Hout]|].
  cbv zeta. split; [reflexivity|]. split; [reflexivity|].
  split; [reflexivity|].
  apply Hbatch.
Defined.

(** ** The command line *)

(** Directory mode: [-d] with a non-empty argument and no input.  The
    exit status is 0 when the failure count is 0, else 1. *)
Lemma run_directory_mode (E : extern) (a : args) (d : string) (w : world) :
  directory a = Some d -> PyStr.truthy d = true ->
  PyStr.truthy_opt (input a) = false ->
  run E a w =
  match convert_directory E d (output a) (recursive a) w with
  | (Return sf, w1) =>
      (Exit (if snd sf =? 0 then 0 else 1),
       with_printed w1 [Completed (fst sf) (snd sf)])
  | (Raise (SystemExit n), w1) => (Exit n, w1)
  | (Raise e, w1) => (Traceback e, w1)
  end.
Proof.
  intros Hd Ht Hi. unfold run, main.
  rewrite Hd, Hi. cbn [PyStr.truthy_opt]. rewrite Ht.
  cbn [negb andb]. unfold bind at 1. cbn [ret]. unfold bind at 1. cbn [ret].
  unfold bind at 1. unfold bind at 1.
  destruct (convert_directory E d (output a) (recursive a) w)
    as [[sf|e] w1]; [reflexivity|].
  destruct e; reflexivity.
Qed.

(** Both an input and a directory, neither of them empty. *)
Lemma run_both (E : extern) (a : args) (i d : string) (w : world) :
  input a = Some i -> directory a = Some d -> i <> "" -> d <> "" ->
  run E a w = (Exit 1, with_printed w [ErrBothGiven]).
Proof.
  intros Hi Hd Hni Hnd. apply truthy_nonempty in Hni, Hnd.
  unfold run, main. rewrite Hi, Hd. cbn [PyStr.truthy_opt].
  rewrite Hni, Hnd. reflexivity.
Qed.

(** ** A missing input directory *)

Lemma convert_directory_missing (E : extern) (input_dir : string)
      (output_dir : option string) (recursive : bool) (w : world) :
  FS.is_dir (Path input_dir) (fs w) = false ->
  convert_directory E input_dir output_dir recursive w =
  (Return (0, 0), with_printed w [ErrDirNotFound (Path input_dir)]).
Proof.
  intros Hdir. unfold convert_directory, bind, get_fs.
  rewrite not_found_test, Hdir. reflexivity.
Qed.

Lemma exists_is_dir (dir : path) (n : node) :
  FS.exists_ dir n = false -> FS.is_dir dir n = false.
Proof.
  unfold FS.exists_, FS.is_dir. destruct (FS.lookup dir n); congruence.
Qed.

(** A batch run on a directory that does not exist, for every
    environment: [convert_directory] prints the error and returns
    [(0, 0)], and in directory mode the process prints the summary and
    ends with status 0. *)
Lemma run_missing_directory (E : extern) (a : args) (d : string) (w : world) :
  directory a = Some d -> PyStr.truthy d = true ->
  PyStr.truthy_opt (input a) = false ->
  FS.exists_ (Path d) (fs w) = false ->
  convert_directory E d (output a) (recursive a) w =
    (Return (0, 0), with_printed w [ErrDirNotFound (Path d)]) /\
  run E a w =
    (Exit 0,
     with_printed (with_printed w [ErrDirNotFound (Path d)]) [Completed 0 0]).
Proof.
  intros Hd Ht Hi Hex. apply exists_is_dir in Hex.
  split; [apply convert_directory_missing; exact Hex|].
  rewrite (run_directory_mode E a d w Hd Ht Hi).
  rewrite convert_directory_missing by exact Hex. reflexivity.
Qed.

(** C2 does not hold of the code.  The directory [nowhere] does not
    exist; [msg2eml.py -d nowhere] prints [Error: Directory 'nowhere' not
    found], counts no failure, prints [Completed: 0 successful, 0 failed]
    and ends with status 0, not 1.  The file [nowhere.msg] does not exist
    either: [msg2eml.py nowhere.msg] prints [Error: File 'nowhere.msg'
    not found] and ends with status 1, as the same condition does in a
    batch ([convert_msg_to_eml] returns [None] for it, which the loop
    counts as a failure). *)
Theorem C2_missing_directory_exits_0 :
  let w := Sample.start Sample.inbox_tree in
  let by_directory :=
    {| input := None; output := None; directory := Some "nowhere";
       recursive := false |} in
  let by_file :=
    {| input := Some "nowhere.msg"; output := None; directory := None;
       recursive := false |} in
  FS.exists_ (Path "nowhere") (fs w) = false /\
  convert_directory (Sample.plain Posix) "nowhere" None false w =
    (Return (0, 0), with_printed w [ErrDirNotFound ["nowhere"]]) /\
  run (Sample.plain Posix) by_directory w =
    (Exit 0,
     with_printed w [ErrDirNotFound ["nowhere"]; Completed 0 0]) /\
  fst (run (Sample.plain Posix) by_directory w) <> Exit 1 /\
  FS.exists_ (Path "nowhere.msg") (fs w) = false /\
  run (Sample.plain Posix) by_file w =
    (Exit 1, with_printed w [ErrFileNotFound ["nowhere.msg"]]).
Proof.
  cbv zeta. repeat split; try reflexivity. discriminate.
Qed.

(** ** No matching file *)

(** C9: when the input directory exists and [glob] finds nothing in it,
    [convert_directory] returns [(0, 0)] having done nothing but print
    that no file was found (no conversion: the tree and the handles are
    as before), and in directory mode the process ends with status 0. *)
Theorem C9_no_files_is_empty_summary
        (E : extern) (a : args) (d : string) (w : world) :
  directory a = Some d -> PyStr.truthy d = true ->
  PyStr.truthy_opt (input a) = false ->
  FS.is_dir (Path d) (fs w) = true ->
  FS.glob (platform E) (Path d) (recursive a) (fs w) = [] ->
  convert_directory E d (output a) (recursive a) w =
    (Return (0, 0), with_printed w [NoMsgFiles (Path d)]) /\
  run E a w =
    (Exit 0,
     with_printed (with_printed w [NoMsgFiles (Path d)]) [Completed 0 0]).
Proof.
  intros Hd Ht Hi Hdir Hglob.
  assert (Hrun : convert_directory E d (output a) (recursive a) w =
                 (Return (0, 0), with_printed w [NoMsgFiles (Path d)])).
  { unfold convert_directory, bind, get_fs.
    rewrite not_found_test, Hdir. cbn [negb]. rewrite Hglob. reflexivity. }
  split; [exact Hrun|].
  rewrite (run_directory_mode E a d w Hd Ht Hi), Hrun. reflexivity.
Qed.

Lemma C9_no_files_is_empty_summary_witness :
  FS.is_dir (Path "inbox") (fs (Sample.start Sample.text_tree)) = true /\
  FS.glob (platform (Sample.plain Posix)) (Path "inbox") true
          (fs (Sample.start Sample.text_tree)) = [] /\
  convert_directory (Sample.plain Posix) "inbox" None true
                    (Sample.start Sample.text_tree) =
    (Return (0, 0),
     with_printed (Sample.start Sample.text_tree)
                  [NoMsgFiles (Path "inbox")]) /\
  run (Sample.plain Posix)
      {| input := None; output := None; directory := Some "inbox";
         recursive := true |}
      (Sample.start Sample.text_tree) =
    (Exit 0,
     with_printed (with_printed (Sample.start Sample.text_tree)
                                [NoMsgFiles (Path "inbox")])
                  [Completed 0 0]).
Proof.
  split; [reflexivity|]. split; [reflexivity|].
  apply (C9_no_files_is_empty_summary
           (Sample.plain Posix)
           {| input := None; output := None; directory := Some "inbox";
              recursive := true |}
           "inbox" (Sample.start Sample.text_tree));
    reflexivity.
Defined.

(** ** Both modes at once *)

(** C7, as stated, fails: with the empty string as the input and
    [-d inbox], both are supplied, yet the directory is converted:
    files are written and the process ends with status 0. *)
Lemma C7_counterexample :
  let a := {| input := Some ""; output := None; directory := Some "inbox";
              recursive := false |} in
  let end_ := run (Sample.plain Posix) a (Sample.start Sample.inbox_tree) in
  fst end_ = Exit 0 /\
  fst end_ <> Exit 1 /\
  FS.exists_ ["inbox"; "a.eml"] (fs (Sample.start Sample.inbox_tree)) = false /\
  FS.exists_ ["inbox"; "a.eml"] (fs (snd end_)) = true.
Proof.
  cbv zeta. repeat split; try reflexivity. discriminate.
Qed.

(** C7, amended: whenever a non-empty input path and a non-empty
    directory are both supplied, the process prints the usage error and
    ends with status 1, and that is all it does: no conversion, the
    tree and the handles are as before. *)
Theorem C7_both_modes_is_usage_error
        (E : extern) (i d : string) (o : option string) (r : bool)
        (w : world) :
  i <> "" -> d <> "" ->
  run E {| input := Some i; output := o; directory := Some d;
           recursive := r |} w =
  (Exit 1, with_printed w [ErrBothGiven]).
Proof.
  intros Hi Hd. eapply run_both; simpl; eauto.
Qed.

Lemma C7_both_modes_is_usage_error_witness :
  "inbox/a.msg" <> "" /\ "inbox" <> "" /\
  run (Sample.plain Posix)
      {| input := Some "inbox/a.msg"; output := None;
         directory := Some "inbox"; recursive := false |}
      (Sample.start Sample.inbox_tree) =
  (Exit 1, with_printed (Sample.start Sample.inbox_tree) [ErrBothGiven]).
Proof.
  split; [discriminate|]. split; [discriminate|].
  apply (C7_both_modes_is_usage_error (Sample.plain Posix)
                                      "inbox/a.msg" "inbox" None false
                                      (Sample.start Sample.inbox_tree));
    discriminate.
Defined.

(** ** The decoder handle *)

(** C3 does not hold of the code: [a.msg] decodes, the output path
    [out] is a directory, so opening it for writing fails; the function
    returns [None] and the handle on [a.msg] is still open. *)
Theorem C3_handle_left_open :
  convert_msg_to_eml (Sample.plain Posix) ["a.msg"] (Some ["out"])
                     (Sample.start Sample.outdir_tree) =
  (Return None,
   {| fs := Sample.outdir_tree;
      handles := [["a.msg"]];
      printed := [ErrConverting ["a.msg"] IsADirectoryError] |}).
Proof. reflexivity. Qed.

(** ** Enumeration and letter case *)

(** C4 does not hold of the code on a POSIX system: [inbox/A.MSG] has
    the MSG extension in the sense of the single-file check
    ([suffix.lower() == '.msg'], no warning), and the batch does not
    select it. *)
Theorem C4_upper_case_not_selected :
  PyStr.lower (suffix ["inbox"; "A.MSG"]) = ".msg" /\
  warning ["inbox"; "A.MSG"] = [] /\
  FS.glob Posix (Path "inbox") false Sample.upper_tree = [] /\
  FS.glob Posix (Path "inbox") true Sample.upper_tree = [] /\
  convert_directory (Sample.plain Posix) "inbox" None false
                    (Sample.start Sample.upper_tree) =
  (Return (0, 0),
   with_printed (Sample.start Sample.upper_tree) [NoMsgFiles ["inbox"]]).
Proof. repeat split; reflexivity. Qed.

(** ** The output path *)

Lemma length_app_string (a b : string) :
  String.length (a ++ b)%string = String.length a + String.length b.
Proof. induction a as [|c a IH]; simpl; [reflexivity | rewrite IH; reflexivity]. Qed.

Lemma drop_app_string (a b : string) :
  PyStr.drop (String.length a) (a ++ b)%string = b.
Proof. induction a as [|c a IH]; simpl; auto. Qed.

Lemma take_app_string (a b : string) :
  PyStr.take (String.length a) (a ++ b)%string = a.
Proof.
  induction a as [|c a IH]; simpl; [destruct b; reflexivity|].
  rewrite IH; reflexivity.
Qed.

Lemma rfind_dot_app (a b : string) :
  PyStr.rfind_dot (a ++ b)%string =
  match PyStr.rfind_dot b with
  | Some i => Some (String.length a + i)
  | None => PyStr.rfind_dot a
  end.
Proof.
  induction a as [|c a IH]; simpl.
  - destruct (PyStr.rfind_dot b); reflexivity.
  - rewrite IH. destruct (PyStr.rfind_dot b); reflexivity.
Qed.

(** On a name [stem.ext], [with_suffix] replaces the extension. *)
Lemma with_suffix_name_replaces (stem ext new : string) :
  stem <> "" -> ext <> "" -> PyStr.rfind_dot ext = None ->
  with_suffix_name (stem ++ "." ++ ext) new = (stem ++ new)%string.
Proof.
  intros Hstem Hext Hdot.
  assert (Hs : 0 < String.length stem) by (destruct stem; simpl; [congruence|lia]).
  assert (He : 0 < String.length ext) by (destruct ext; simpl; [congruence|lia]).
  unfold with_suffix_name, suffix_of.
  rewrite rfind_dot_app. simpl PyStr.rfind_dot. rewrite Hdot. simpl.
  rewrite length_app_string. simpl String.length.
  replace (0 <? String.length stem + 0) with true
    by (symmetry; apply Nat.ltb_lt; lia).
  replace (String.length stem + 0 <?
           String.length stem + S (String.length ext) - 1) with true
    by (symmetry; apply Nat.ltb_lt; lia).
  simpl. rewrite Nat.add_0_r, drop_app_string. simpl.
  replace (String.length stem + S (String.length ext) -
           S (String.length ext)) with (String.length stem) by lia.
  rewrite take_app_string. reflexivity.
Qed.

(** C8, as stated, fails in its second half: [-o ''] names an output
    directory explicitly (the empty string, which [Path] reads as the
    current directory), and the batch does not join it with the relative
    path: [inbox/a.msg] goes to [inbox/a.eml], not to [a.eml]. *)
Lemma C8_counterexample :
  let w := Sample.start Sample.inbox_tree in
  batch_output_path ["inbox"] (Some "") ["inbox"; "a.msg"] w =
    (Return ["inbox"; "a.eml"], w) /\
  joinpath (Path "") ["a.eml"] = ["a.eml"] /\
  ["inbox"; "a.eml"] <> joinpath (Path "") ["a.eml"] /\
  let w' := snd (convert_directory (Sample.plain Posix) "inbox" (Some "")
                                   false w) in
  FS.exists_ ["a.eml"] (fs w') = false /\
  FS.exists_ ["inbox"; "a.eml"] (fs w') = true.
Proof.
  cbv zeta. repeat split; try reflexivity. discriminate.
Qed.

(** C8, amended.
    - A conversion with no explicit output path writes to the input path
      with its extension replaced by [.eml].
    - A batch run with an explicit output directory that is not the empty
      string calls [convert_msg_to_eml], for every file found, with the
      output path that is this directory joined with the path of the
      file relative to the input directory, the extension replaced by
      [.eml]; the calls that return a path return that path, and the
      file is there when the run ends.
    Beyond the claim:
    - a batch run without an output directory, or with the empty string
      for it, passes the path of the file with its extension replaced;
    - a conversion with an explicit output path writes there;
    - the same output paths, as the values lines 93 to 98 compute;
    - "extension replaced" on a name [stem.ext] gives [stem.eml]. *)
Theorem C8_output_path :
  (forall E msg_path w out w',
      convert_msg_to_eml E msg_path None w = (Return (Some out), w') ->
      with_suffix msg_path ".eml" = Some out /\
      FS.exists_ out (fs w') = true) /\
  (forall E input_dir d recursive w,
      only_Exceptions E -> d <> "" ->
      exists sf w' ev0 calls,
        convert_directory E input_dir (Some d) recursive w =
          (Return sf, w') /\
        map call_file calls =
          FS.glob (platform E) (Path input_dir) recursive (fs w) /\
        in_turn E calls (with_printed w [ev0]) w' /\
        forall c,
          In c calls ->
          (exists rel eml,
              relative_to (call_file c) (Path input_dir) = Some rel /\
              with_suffix rel ".eml" = Some eml /\
              call_output c = joinpath (Path d) eml) /\
          (forall out,
              call_result c = Some out ->
              out = call_output c /\ FS.exists_ out (fs w') = true)) /\
  (forall E input_dir output_dir recursive w,
      only_Exceptions E -> PyStr.truthy_opt output_dir = false ->
      exists sf w' ev0 calls,
        convert_directory E input_dir output_dir recursive w =
          (Return sf, w') /\
        map call_file calls =
          FS.glob (platform E) (Path input_dir) recursive (fs w) /\
        in_turn E calls (with_printed w [ev0]) w' /\
        forall c,
          In c calls ->
          with_suffix (call_file c) ".eml" = Some (call_output c) /\
          (forall out,
              call_result c = Some out ->
              out = call_output c /\ FS.exists_ out (fs w') = true)) /\
  (forall E msg_path o w out w',
      convert_msg_to_eml E msg_path (Some o) w = (Return (Some out), w') ->
      out = o /\ FS.exists_ out (fs w') = true) /\
  (forall input_dir d rel nm w,
      d <> "" -> nm <> "" ->
      batch_output_path input_dir (Some d) (input_dir ++ rel ++ [nm]) w =
      (Return (joinpath (Path d) (rel ++ [with_suffix_name nm ".eml"])), w)) /\
  (forall input_dir output_dir rel nm w,
      PyStr.truthy_opt output_dir = false -> nm <> "" ->
      batch_output_path input_dir output_dir (input_dir ++ rel ++ [nm]) w =
      (Return (input_dir ++ rel ++ [with_suffix_name nm ".eml"]), w) /\
      with_suffix (input_dir ++ rel ++ [nm]) ".eml" =
      Some (input_dir ++ rel ++ [with_suffix_name nm ".eml"])) /\
  (forall stem ext,
      stem <> "" -> ext <> "" -> PyStr.rfind_dot ext = None ->
      with_suffix_name (stem ++ "." ++ ext) ".eml" = (stem ++ ".eml")%string).
Proof.
  split; [|split; [|split; [|split; [|split; [|split]]]]].
  - intros E msg_path w out w' Hrun. apply convert_msg_to_eml_run in Hrun.
    destruct Hrun as (Hres & _ & _ & (n & em & data & _ & _ & _ & Hl) & _).
    split; [exact Hres|]. unfold FS.exists_. rewrite Hl. reflexivity.
  - intros E input_dir d recursive w HE Hd.
    destruct (convert_directory_run E input_dir (Some d) recursive w HE)
      as (s & f & w' & evs & ev0 & calls & Hrun & _ & _ & _ & _ &
          Hmap & Hturn & _ & _ & Hsent).
    exists (s, f), w', ev0, calls.
    split; [exact Hrun|]. split; [exact Hmap|]. split; [exact Hturn|].
    intros c Hc. split.
    + apply sent_output_dir; [exact Hd|].
      rewrite Forall_forall in Hsent. apply Hsent. exact Hc.
    + intros out Hout. eapply in_turn_written; eassumption.
  - intros E input_dir output_dir recursive w HE Hd.
    destruct (convert_directory_run E input_dir output_dir recursive w HE)
      as (s & f & w' & evs & ev0 & calls & Hrun & _ & _ & _ & _ &
          Hmap & Hturn & _ & _ & Hsent).
    exists (s, f), w', ev0, calls.
    split; [exact Hrun|]. split; [exact Hmap|]. split; [exact Hturn|].
    intros c Hc. split.
    + eapply sent_beside; [exact Hd|].
      rewrite Forall_forall in Hsent. apply Hsent. exact Hc.
    + intros out Hout. eapply in_turn_written; eassumption.
  - intros E msg_path o w out w' Hrun. apply convert_msg_to_eml_run in Hrun.
    destruct Hrun as (Hres & _ & _ & (n & em & data & _ & _ & _ & Hl) & _).
    split; [inversion Hres; reflexivity|].
    unfold FS.exists_. rewrite Hl. reflexivity.
  - intros input_dir d rel nm w Hd Hnm.
    rewrite batch_output_path_found by assumption.
    unfold batch_target. cbn [PyStr.truthy_opt].
    apply truthy_nonempty in Hd. rewrite Hd. reflexivity.
  - intros input_dir output_dir rel nm w Hd Hnm. split.
    + rewrite batch_output_path_found by assumption.
      unfold batch_target. rewrite Hd. reflexivity.
    + rewrite app_assoc, with_suffix_snoc by assumption.
      rewrite <- app_assoc. reflexivity.
  - intros stem ext Hstem Hext Hdot.
    apply with_suffix_name_replaces; assumption.
Qed.

Lemma C8_output_path_witness :
  (let run1 := convert_msg_to_eml (Sample.plain Posix) ["inbox"; "a.msg"] None
                                  (Sample.start Sample.inbox_tree) in
   run1 = (Return (Some ["inbox"; "a.eml"]), snd run1) /\
   with_suffix ["inbox"; "a.msg"] ".eml" = Some ["inbox"; "a.eml"] /\
   FS.exists_ ["inbox"; "a.eml"] (fs (snd run1)) = true) /\
  (let run2 := convert_directory (Sample.plain Posix) "inbox" (Some "out")
                                 true (Sample.start Sample.inbox_tree) in
   only_Exceptions (Sample.plain Posix) /\ "out" <> "" /\
   fst run2 = Return (3, 0) /\
   FS.exists_ ["out"; "sub"; "c.eml"] (fs (snd run2)) = true /\
   exists sf w' ev0 calls,
     convert_directory (Sample.plain Posix) "inbox" (Some "out") true
                       (Sample.start Sample.inbox_tree) = (Return sf, w') /\
     map call_file calls =
       FS.glob (platform (Sample.plain Posix)) (Path "inbox") true
               (fs (Sample.start Sample.inbox_tree)) /\
     in_turn (Sample.plain Posix) calls
             (with_printed (Sample.start Sample.inbox_tree) [ev0]) w' /\
     forall c,
       In c calls ->
       (exists rel eml,
           relative_to (call_file c) (Path "inbox") = Some rel /\
           with_suffix rel ".eml" = Some eml /\
           call_output c = joinpath (Path "out") eml) /\
       (forall out,
           call_result c = Some out ->
           out = call_output c /\ FS.exists_ out (fs w') = true)) /\
  (batch_output_path ["inbox"] (Some "out") (["inbox"] ++ ["sub"] ++ ["c.msg"])
                     (Sample.start Sample.inbox_tree) =
   (Return (joinpath (Path "out") (["sub"] ++ [with_suffix_name "c.msg" ".eml"])),
    Sample.start Sample.inbox_tree)) /\
  with_suffix_name ("c" ++ "." ++ "msg") ".eml" = ("c" ++ ".eml")%string.
Proof.
  destruct C8_output_path as (Hsingle & Hbatch & _ & _ & Hout & _ & Hname).
  split; [|split; [|split]].
  - cbv zeta. split; [reflexivity|].
    apply (Hsingle (Sample.plain Posix) ["inbox"; "a.msg"]
                   (Sample.start Sample.inbox_tree)).
    reflexivity.
  - cbv zeta. split; [apply plain_only_Exceptions|].
    split; [discriminate|]. split; [vm_compute; reflexivity|].
    split; [vm_compute; reflexivity|].
    apply Hbatch; [apply plain_only_Exceptions | discriminate].
  - apply Hout; discriminate.
  - apply Hname; [discriminate | discriminate | reflexivity].
Defined.

(** * Further properties of the code *)

(** ** The names of the output files *)

Lemma lower_app (a b : string) :
  PyStr.lower (a ++ b) = (PyStr.lower a ++ PyStr.lower b)%string.
Proof. induction a as [|c a IH]; simpl; [reflexivity | rewrite IH; reflexivity]. Qed.

Lemma endswith_eml_msg (z : string) :
  PyStr.endswith (z ++ ".eml") ".msg" = false.
Proof.
  unfold PyStr.endswith. rewrite length_app_string. simpl String.length.
  replace (String.length z + 4 - 4) with (String.length z) by lia.
  rewrite drop_app_string. apply andb_false_r.
Qed.

Lemma with_suffix_name_eml (nm : string) :
  exists z, with_suffix_name nm ".eml" = (z ++ ".eml")%string.
Proof. unfold with_suffix_name. destruct (String.eqb _ _); eauto. Qed.

(** A name that [with_suffix] has made does not match [*.msg], under
    either casing rule. *)
Lemma eml_not_msg (fl : flavour) (nm : string) :
  match_msg fl (with_suffix_name nm ".eml") = false.
Proof.
  destruct (with_suffix_name_eml nm) as [z ->].
  destruct fl; simpl.
  - apply endswith_eml_msg.
  - rewrite lower_app. apply (endswith_eml_msg (PyStr.lower z)).
Qed.

Lemma name_batch_target (input_dir : path) (output_dir : option string)
      (rel : path) (nm : string) :
  name (batch_target input_dir output_dir rel nm) =
  with_suffix_name nm ".eml".
Proof.
  unfold batch_target, name.
  destruct (PyStr.truthy_opt output_dir); rewrite !app_assoc; apply last_snoc.
Qed.

(** ** One conversion, further *)

(** X1: when [convert_msg_to_eml] returns a path, the file at that path
    holds exactly the bytes the decoder serialized from the input, the
    directory of the output exists, and the decoder handle is closed
    again. *)
Theorem X1_success_writes_and_closes
        (E : extern) (msg_path : path) (output_path : option path)
        (w w' : world) (out : path) :
  convert_msg_to_eml E msg_path output_path w = (Return (Some out), w') ->
  (exists n em data,
      FS.lookup msg_path (fs w) = Some n /\
      decoder E msg_path n = inr (inr em) /\
      as_bytes em = inr data /\
      FS.lookup out (fs w') = Some (File data)) /\
  FS.is_dir (parent out) (fs w') = true /\
  handles w' = handles w.
Proof.
  intros Hrun.
  pose proof (convert_msg_to_eml_run _ _ _ _ _ _ Hrun) as Hpost.
  pose proof (convert_msg_to_eml_effects_run _ _ _ _ _ _ Hrun) as Heff.
  destruct Hpost as (Hres & Hh & _ & Hfile & _).
  destruct Heff as (_ & _ & Hfs). rewrite Hres in Hfs.
  destruct Hfs as (wd & Hafter & d & ->).
  split; [exact Hfile|]. split; [|exact Hh].
  eapply fs_after_parent; eassumption.
Qed.

Lemma X1_success_writes_and_closes_witness :
  let run1 := convert_msg_to_eml (Sample.plain Posix) ["a.msg"]
                                 (Some ["new"; "deep"; "out.eml"])
                                 (Sample.start Sample.single_tree) in
  run1 = (Return (Some ["new"; "deep"; "out.eml"]), snd run1) /\
  FS.is_dir (parent ["new"; "deep"; "out.eml"]) (fs (snd run1)) = true /\
  handles (snd run1) = handles (Sample.start Sample.single_tree).
Proof.
  cbv zeta. split; [reflexivity|].
  apply (X1_success_writes_and_closes
           (Sample.plain Posix) ["a.msg"] (Some ["new"; "deep"; "out.eml"])
           (Sample.start Sample.single_tree)
           (snd (convert_msg_to_eml (Sample.plain Posix) ["a.msg"]
                                    (Some ["new"; "deep"; "out.eml"])
                                    (Sample.start Sample.single_tree)))
           ["new"; "deep"; "out.eml"]).
  reflexivity.
Defined.



(** ** A failure after the output file is open *)

Section AfterOpen.

Variable E : extern.
Variable msg_path : path.
Variable output_path : option path.
Variable w : world.
Variables n n1 n2 : node.
Variable em : EmailMessage.
Variable out : path.

Hypothesis Hn : FS.lookup msg_path (fs w) = Some n.
Hypothesis Hd : decoder E msg_path n = inr (inr em).
Hypothesis Hres : resolved msg_path output_path = Some out.
Hypothesis Hfm : os_fault E (CallMkdir (parent out)) = None.
Hypothesis Hmk : FS.mkdir (parent out) (fs w) = inr n1.
Hypothesis Hfo : os_fault E (CallOpen out) = None.
Hypothesis Hop : FS.store out [] n1 = inr n2.

(** With an input that decodes and an output file that can be opened, a
    conversion gets as far as serializing, with the file open and
    empty, the handle open and the warning printed. *)
Lemma convert_to_open (Q : outcome (option path) -> world -> Prop) :
  wp (data <- lift (as_bytes em) ;;
      write E out data ;;;
      close {| msg_source := msg_path; asEmailMessage := inr em |} ;;;
      print (Converted msg_path out) ;;;
      ret (Some out))
     {| fs := n2; handles := msg_path :: handles w;
        printed := printed w ++ warning msg_path |}
     (fun o w1 =>
        match o with
        | Return a => Q (Return a) w1
        | Raise e =>
            if is_Exception e
            then wp (print (ErrConverting msg_path e) ;;; ret None) w1 Q
            else Q (Raise e) w1
        end) ->
  wp (convert_msg_to_eml E msg_path output_path) w Q.
Proof.
  intros H. unfold convert_msg_to_eml. apply wp_try. do 2 wp_step.
  assert (Hex : FS.exists_ msg_path (fs w) = true)
    by (unfold FS.exists_; rewrite Hn; reflexivity).
  rewrite Hex. cbn [negb]. do 3 wp_step.
  apply wp_extract_msg_Message; cbn [fs handles printed with_printed];
    try congruence.
  intros n' r Hn' Hd'. assert (n' = n) by congruence. subst n'.
  assert (r = inr em) by congruence. subst r.
  wp_step.
  assert (Hout : wp (match output_path with
                     | Some o0 => ret o0
                     | None => or_ValueError (with_suffix msg_path ".eml")
                     end)
                    {| fs := fs w; handles := msg_path :: handles w;
                       printed := printed w ++ warning msg_path |}
                    (fun o w1 => o = Return out /\
                                 w1 = {| fs := fs w;
                                         handles := msg_path :: handles w;
                                         printed := printed w ++
                                                    warning msg_path |})).
  { unfold resolved in Hres. destruct output_path as [o0|].
    - inversion Hres; subst. apply wp_ret. auto.
    - rewrite Hres. apply wp_ret. auto. }
  eapply wp_conseq; [exact Hout|]. clear Hout.
  intros o1 w1 [-> ->].
  wp_step. unfold mkdir.
  apply wp_os; cbn [fs handles printed]; [congruence | congruence |].
  intros n1' _ Hmk'. assert (n1' = n1) by congruence. subst n1'.
  do 2 wp_step.
  wp_step. unfold open_wb.
  apply wp_os; cbn [fs handles printed]; [congruence | congruence |].
  intros n2' _ Hop'. assert (n2' = n2) by congruence. subst n2'.
  exact H.
Qed.

End AfterOpen.

(** X3: the input decodes and the output file has been opened.
    - When [as_bytes()] then raises an [Exception], the call returns
      [None] and leaves behind the output file, empty, and the decoder
      handle, open.
    - When the write then fails with an [Exception], the call returns
      [None] and leaves behind the output file holding the part of the
      data that has reached it, and the decoder handle, open. *)
Theorem X3_failure_after_open
        (E : extern) (msg_path : path) (output_path : option path)
        (w : world) (n n1 n2 : node) (em : EmailMessage) (e : exn)
        (out : path) :
  FS.lookup msg_path (fs w) = Some n ->
  decoder E msg_path n = inr (inr em) ->
  resolved msg_path output_path = Some out ->
  os_fault E (CallMkdir (parent out)) = None ->
  FS.mkdir (parent out) (fs w) = inr n1 ->
  os_fault E (CallOpen out) = None ->
  FS.store out [] n1 = inr n2 ->
  is_Exception e = true ->
  (as_bytes em = inl e ->
   convert_msg_to_eml E msg_path output_path w =
     (Return None,
      {| fs := n2;
         handles := msg_path :: handles w;
         printed := printed w ++ warning msg_path ++
                    [ErrConverting msg_path e] |}) /\
   FS.lookup out n2 = Some (File [])) /\
  (forall data,
      as_bytes em = inr data ->
      os_fault E (CallWrite out) = Some e ->
      exists n3,
        convert_msg_to_eml E msg_path output_path w =
          (Return None,
           {| fs := n3;
              handles := msg_path :: handles w;
              printed := printed w ++ warning msg_path ++
                         [ErrConverting msg_path e] |}) /\
        FS.store out (firstn (os_partial E out) data) n2 = inr n3 /\
        FS.lookup out n3 = Some (File (firstn (os_partial E out) data))).
Proof.
  intros Hn Hd Hres Hfm Hmk Hfo Hop Hexc. split.
  - intros Hb. split; [|eapply store_lookup; eassumption].
    apply wp_eq.
    apply (convert_to_open E msg_path output_path w n n1 n2 em out
                           Hn Hd Hres Hfm Hmk Hfo Hop).
    do 2 wp_step. rewrite Hb, Hexc. do 3 wp_step.
    split; [reflexivity|]. unfold with_printed. cbn [fs handles printed].
    rewrite <- app_assoc. reflexivity.
  - intros data Hb Hfw.
    destruct (store_again _ [] (firstn (os_partial E out) data) _ _ Hop)
      as [n3 Hn3].
    exists n3. split; [|split; [exact Hn3 | eapply store_lookup; eassumption]].
    apply wp_eq.
    apply (convert_to_open E msg_path output_path w n n1 n2 em out
                           Hn Hd Hres Hfm Hmk Hfo Hop).
    do 2 wp_step. rewrite Hb. wp_step.
    apply wp_write; cbn [fs handles printed].
    + intros e' n3' He' Hn3'.
      assert (e' = e) by congruence. subst e'.
      assert (n3' = n3) by congruence. subst n3'.
      rewrite Hexc. do 3 wp_step.
      split; [reflexivity|]. unfold with_printed. cbn [fs handles printed].
      rewrite <- app_assoc. reflexivity.
    + intros e' d He'. destruct (store_again _ [] d _ _ Hop) as [m Hm].
      congruence.
    + congruence.
Qed.

Lemma X3_failure_after_open_witness :
  (let w := Sample.start Sample.single_tree in
   convert_msg_to_eml Sample.unserializable ["a.msg"] None w =
     (Return None,
      {| fs := Dir [("a.msg", File Sample.x01); ("a.eml", File [])];
         handles := ["a.msg"] :: handles w;
         printed := printed w ++ warning ["a.msg"] ++
                    [ErrConverting ["a.msg"] (LibraryError "boom")] |}) /\
   FS.lookup ["a.eml"]
             (Dir [("a.msg", File Sample.x01); ("a.eml", File [])]) =
   Some (File [])) /\
  (let w := Sample.start Sample.long_tree in
   exists n3,
     convert_msg_to_eml Sample.full_disk ["a.msg"] None w =
       (Return None,
        {| fs := n3;
           handles := ["a.msg"] :: handles w;
           printed := printed w ++ warning ["a.msg"] ++
                      [ErrConverting ["a.msg"] OSError] |}) /\
     FS.store ["a.eml"]
              (firstn (os_partial Sample.full_disk ["a.eml"])
                      [Init.Byte.x01; Init.Byte.x02])
              (Dir [("a.msg", File [Init.Byte.x01; Init.Byte.x02]);
                    ("a.eml", File [])]) = inr n3 /\
     FS.lookup ["a.eml"] n3 = Some (File [Init.Byte.x01])).
Proof.
  split.
  - cbv zeta.
    apply (X3_failure_after_open
             Sample.unserializable ["a.msg"] None
             (Sample.start Sample.single_tree)
             (File Sample.x01) Sample.single_tree
             (Dir [("a.msg", File Sample.x01); ("a.eml", File [])])
             {| as_bytes := inl (LibraryError "boom") |}
             (LibraryError "boom") ["a.eml"]);
      reflexivity.
  - cbv zeta.
    apply (X3_failure_after_open
             Sample.full_disk ["a.msg"] None
             (Sample.start Sample.long_tree)
             (File [Init.Byte.x01; Init.Byte.x02]) Sample.long_tree
             (Dir [("a.msg", File [Init.Byte.x01; Init.Byte.x02]);
                   ("a.eml", File [])])
             {| as_bytes := inr [Init.Byte.x01; Init.Byte.x02] |}
             OSError ["a.eml"]);
      reflexivity.
Defined.

(** ** A batch, further *)

Lemma subjects_app (a b : list event) :
  subjects (a ++ b) = subjects a ++ subjects b.
Proof.
  induction a as [|ev a IH]; simpl; [reflexivity|].
  destruct (is_success ev || is_failure ev); [|exact IH].
  destruct (reports ev); [simpl; rewrite IH; reflexivity | exact IH].
Qed.

Lemma subjects_warning (p : path) : subjects (warning p) = [].
Proof. unfold warning. destruct (negb _); reflexivity. Qed.

Section BatchEffects.

Variable E : extern.
Variable input_dir : path.
Variable output_dir : option string.


(** The handles a loop leaves open are at most as many as the failures
    it counts, and none when it counts none. *)
Lemma convert_each_handles (msg_files : list path) :
  found E input_dir msg_files ->
  forall s0 f0 w,
    wp (convert_each E input_dir output_dir msg_files s0 f0) w
       (fun o w' =>
          match o with
          | Return (s, f) =>
              f0 <= f /\
              List.length (handles w') + f0 <= List.length (handles w) + f /\
              (f = f0 -> handles w' = handles w)
          | Raise _ => True
          end).
Proof.
  induction msg_files as [|msg_file rest IH]; intros Hfound s0 f0 w.
  - apply wp_ret. auto.
  - destruct (Hfound msg_file (or_introl eq_refl)) as (rel & nm & Hm & ->).
    assert (Hrest : found E input_dir rest)
      by (intros f Hf; apply Hfound; right; exact Hf).
    specialize (IH Hrest).
    cbn [convert_each]. apply wp_bind. unfold wp at 1.
    rewrite batch_output_path_found
      by (eapply match_msg_nonempty; eassumption).
    cbn [fst snd]. apply wp_bind.
    assert (Hboth :
              wp (convert_msg_to_eml E (input_dir ++ rel ++ [nm])
                    (Some (batch_target input_dir output_dir rel nm))) w
                 (fun o w1 =>
                    convert_post E (input_dir ++ rel ++ [nm])
                      (Some (batch_target input_dir output_dir rel nm)) w o w1 /\
                    convert_effects (input_dir ++ rel ++ [nm])
                      (Some (batch_target input_dir output_dir rel nm)) w o w1)).
    { unfold wp. split;
        [apply convert_msg_to_eml_post | apply convert_msg_to_eml_effects]. }
    eapply wp_conseq; [exact Hboth|]. clear Hboth.
    intros [[out|]|e] w1 [Hpost Heff]; [| |exact I].
    + destruct Hpost as (_ & Hh & _).
      eapply wp_conseq; [apply IH|].
      intros [[s f]|e] w2; [|auto]. rewrite Hh. auto.
    + destruct Heff as (_ & Hh & _).
      eapply wp_conseq; [apply IH|].
      intros [[s f]|e] w2; [|auto]. intros (Hle & Hlen & _).
      split; [lia|]. split; [|intros ->; lia].
      destruct Hh as [Hh | Hh]; rewrite Hh in Hlen; simpl in Hlen; lia.
Qed.

(** The result lines of a loop are about its files, one line a file, in
    the order of the files. *)
Lemma convert_each_subjects (msg_files : list path) :
  found E input_dir msg_files ->
  forall s0 f0 w,
    wp (convert_each E input_dir output_dir msg_files s0 f0) w
       (fun o w' =>
          match o with
          | Return _ =>
              exists evs, printed w' = printed w ++ evs /\
                          subjects evs = msg_files
          | Raise _ => True
          end).
Proof.
  induction msg_files as [|msg_file rest IH]; intros Hfound s0 f0 w.
  - apply wp_ret. exists []. rewrite app_nil_r. auto.
  - destruct (Hfound msg_file (or_introl eq_refl)) as (rel & nm & Hm & ->).
    assert (Hrest : found E input_dir rest)
      by (intros f Hf; apply Hfound; right; exact Hf).
    specialize (IH Hrest).
    cbn [convert_each]. apply wp_bind. unfold wp at 1.
    rewrite batch_output_path_found
      by (eapply match_msg_nonempty; eassumption).
    cbn [fst snd]. apply wp_bind.
    eapply wp_conseq; [apply convert_msg_to_eml_post|].
    intros [[out|]|e] w1 Hpost; cbn [convert_post] in Hpost; [| |exact I].
    + destruct Hpost as (_ & _ & Hpr & _).
      eapply wp_conseq; [apply IH|].
      intros [sf|e] w2; [|auto]. intros (evs & Hpr2 & Hsub).
      exists ((warning (input_dir ++ rel ++ [nm]) ++
               [Converted (input_dir ++ rel ++ [nm]) out]) ++ evs).
      split; [rewrite Hpr2, Hpr, <- !app_assoc; reflexivity|].
      rewrite !subjects_app, subjects_warning, Hsub. reflexivity.
    + destruct Hpost as (pre & ev & Hpr & Hpre & Hfail & Hrep).
      eapply wp_conseq; [apply IH|].
      intros [sf|e] w2; [|auto]. intros (evs & Hpr2 & Hsub).
      exists ((pre ++ [ev]) ++ evs).
      split; [rewrite Hpr2, Hpr, <- !app_assoc; reflexivity|].
      rewrite !subjects_app, Hsub.
      assert (Hp : subjects pre = [])
        by (destruct Hpre as [-> | ->]; [reflexivity | apply subjects_warning]).
      rewrite Hp. simpl. rewrite Hfail, orb_true_r, Hrep. reflexivity.
Qed.

End BatchEffects.

(** From the loop to [convert_directory]: the lines before the loop
    change neither the tree nor the handles and are no result lines. *)
Lemma convert_directory_lift (E : extern) (input_dir : string)
      (output_dir : option string) (recursive : bool) (w : world)
      (Q : world -> outcome (nat * nat) -> world -> Prop) :
  (forall ev, is_success ev = false -> is_failure ev = false ->
              Q w (Return (0, 0)) (with_printed w [ev])) ->
  (forall ev w0 o w', is_success ev = false -> is_failure ev = false ->
                      w0 = with_printed w [ev] ->
                      Q w0 o w' -> Q w o w') ->
  (forall w0,
      fs w0 = fs w ->
      wp (convert_each E (Path input_dir) output_dir
            (FS.glob (platform E) (Path input_dir) recursive (fs w)) 0 0)
         w0 (Q w0)) ->
  wp (convert_directory E input_dir output_dir recursive) w (Q w).
Proof.
  intros Hempty Hshift Hloop.
  unfold convert_directory. do 2 wp_step. rewrite not_found_test.
  destruct (FS.is_dir (Path input_dir) (fs w)); cbn [negb].
  - destruct (FS.glob (platform E) (Path input_dir) recursive (fs w))
      as [|f fs'] eqn:Hglob.
    + do 3 wp_step. apply Hempty; reflexivity.
    + do 2 wp_step.
      eapply wp_conseq; [apply Hloop; reflexivity|].
      intros o w'.
      apply (Hshift (Found (List.length (f :: fs'))) _ o w'
                    eq_refl eq_refl eq_refl).
  - do 3 wp_step. apply Hempty; reflexivity.
Qed.

Lemma found_glob (E : extern) (dir : path) (recursive : bool) (n : node) :
  found E dir (FS.glob (platform E) dir recursive n).
Proof. intros f Hf. eapply glob_shape; eassumption. Qed.



(** X5: a batch run that returns has printed exactly one result line
    (converted, or error) for each file found, in the order in which
    [glob] has listed the files. *)
Theorem X5_one_result_line_per_file
        (E : extern) (input_dir : string) (output_dir : option string)
        (recursive : bool) (w w' : world) (sf : nat * nat) :
  convert_directory E input_dir output_dir recursive w = (Return sf, w') ->
  exists evs,
    printed w' = printed w ++ evs /\
    subjects evs = FS.glob (platform E) (Path input_dir) recursive (fs w).
Proof.
  intros Hrun.
  pose (Q := fun (w0 : world) (o : outcome (nat * nat)) (w1 : world) =>
               match o with
               | Return _ =>
                   exists evs,
                     printed w1 = printed w0 ++ evs /\
                     subjects evs =
                     FS.glob (platform E) (Path input_dir) recursive (fs w)
               | Raise _ => True
               end).
  assert (H : wp (convert_directory E input_dir output_dir recursive) w (Q w)).
  { unfold Q, convert_directory. do 2 wp_step. rewrite not_found_test.
    destruct (FS.is_dir (Path input_dir) (fs w)) eqn:Hdir; cbn [negb].
    - destruct (FS.glob (platform E) (Path input_dir) recursive (fs w))
        as [|f fs'] eqn:Hglob.
      + do 3 wp_step. exists [NoMsgFiles (Path input_dir)]. auto.
      + do 2 wp_step.
        eapply wp_conseq;
          [apply convert_each_subjects; rewrite <- Hglob; apply found_glob|].
        intros [sf0|e] w1; [|auto]. intros (evs & Hpr & Hsub).
        exists (Found (List.length (f :: fs')) :: evs).
        cbn [printed with_printed] in Hpr. rewrite Hpr, <- app_assoc.
        split; [reflexivity | exact Hsub].
    - rewrite glob_not_dir by assumption.
      do 3 wp_step. exists [ErrDirNotFound (Path input_dir)]. auto. }
  apply (wp_run _ _ _ H) in Hrun. exact Hrun.
Qed.

Lemma X5_one_result_line_per_file_witness :
  let w := Sample.start Sample.inbox_tree in
  let run1 := convert_directory (Sample.plain Posix) "inbox" None true w in
  run1 = (Return (3, 0), snd run1) /\
  exists evs,
    printed (snd run1) = printed w ++ evs /\
    subjects evs = FS.glob Posix (Path "inbox") true (fs w).
Proof.
  cbv zeta. split; [vm_compute; reflexivity|].
  apply (X5_one_result_line_per_file
           (Sample.plain Posix) "inbox" None true
           (Sample.start Sample.inbox_tree)
           (snd (convert_directory (Sample.plain Posix) "inbox" None true
                                   (Sample.start Sample.inbox_tree)))
           (3, 0)).
  vm_compute; reflexivity.
Defined.

(** X6: after a batch run that returns [(s, f)], at most [f] decoder
    handles more than before are open, and when no failure was counted
    the open handles are those of before. *)
Theorem X6_handles_bounded_by_failures
        (E : extern) (input_dir : string) (output_dir : option string)
        (recursive : bool) (w w' : world) (s f : nat) :
  convert_directory E input_dir output_dir recursive w =
    (Return (s, f), w') ->
  List.length (handles w') <= List.length (handles w) + f /\
  (f = 0 -> handles w' = handles w).
Proof.
  intros Hrun.
  pose (Q := fun (w0 : world) (o : outcome (nat * nat)) (w1 : world) =>
               match o with
               | Return (s, f) =>
                   List.length (handles w1) <= List.length (handles w0) + f /\
                   (f = 0 -> handles w1 = handles w0)
               | Raise _ => True
               end).
  assert (H : wp (convert_directory E input_dir output_dir recursive) w (Q w)).
  { apply convert_directory_lift.
    - intros ev _ _. simpl. split; [lia | auto].
    - intros ev w0 [[s0 f0]|e] w1 _ _ -> H; exact H.
    - intros w0 _. eapply wp_conseq;
        [apply convert_each_handles; apply found_glob|].
      intros [[s0 f0]|e] w1; [|auto]. intros (_ & Hlen & Heq).
      split; [lia | exact Heq]. }
  apply (wp_run _ _ _ H) in Hrun. exact Hrun.
Qed.

Lemma X6_handles_bounded_by_failures_witness :
  let w := Sample.start Sample.inbox_tree in
  let run1 := convert_directory (Sample.plain Posix) "inbox" None true w in
  run1 = (Return (3, 0), snd run1) /\
  List.length (handles (snd run1)) <= List.length (handles w) + 0 /\
  (0 = 0 -> handles (snd run1) = handles w).
Proof.
  cbv zeta. split; [vm_compute; reflexivity|].
  apply (X6_handles_bounded_by_failures
           (Sample.plain Posix) "inbox" None true
           (Sample.start Sample.inbox_tree)
           (snd (convert_directory (Sample.plain Posix) "inbox" None true
                                   (Sample.start Sample.inbox_tree)))
           3 0).
  vm_compute; reflexivity.
Defined.

(** ** The command line, further *)


(** Neither mode. *)
Lemma run_no_mode (E : extern) (a : args) (w : world) :
  PyStr.truthy_opt (input a) = false ->
  PyStr.truthy_opt (directory a) = false ->
  run E a w = (Exit 1, with_printed w [PrintHelp]).
Proof.
  intros Hi Hd. unfold run, main. rewrite Hi, Hd. reflexivity.
Qed.

(** X7: with neither an input nor a directory (each absent or the empty
    string) the process prints the help and ends with status 1; it
    converts nothing. *)
Theorem X7_no_mode_prints_help (E : extern) (a : args) (w : world) :
  PyStr.truthy_opt (input a) = false ->
  PyStr.truthy_opt (directory a) = false ->
  run E a w = (Exit 1, with_printed w [PrintHelp]).
Proof. apply run_no_mode. Qed.

Lemma X7_no_mode_prints_help_witness :
  let a := {| input := Some ""; output := Some "out"; directory := None;
              recursive := true |} in
  PyStr.truthy_opt (input a) = false /\
  PyStr.truthy_opt (directory a) = false /\
  run (Sample.plain Posix) a (Sample.start Sample.inbox_tree) =
  (Exit 1, with_printed (Sample.start Sample.inbox_tree) [PrintHelp]).
Proof.
  cbv zeta. split; [reflexivity|]. split; [reflexivity|].
  apply (X7_no_mode_prints_help
           (Sample.plain Posix)
           {| input := Some ""; output := Some "out"; directory := None;
              recursive := true |}
           (Sample.start Sample.inbox_tree)); reflexivity.
Defined.










(** ** Enumeration, further *)





(** X13: the output path the batch computes for a file it has found is
    never itself selected by the enumeration, in any directory and on
    either platform: its name ends in [.eml], so a later batch run does
    not take the files written by an earlier one for inputs. *)
Theorem X13_outputs_are_not_inputs
        (input_dir : path) (output_dir : option string) (rel : path)
        (nm : string) (w w' : world) (out : path) :
  nm <> "" ->
  batch_output_path input_dir output_dir (input_dir ++ rel ++ [nm]) w =
    (Return out, w') ->
  forall fl dir recursive n f,
    In f (FS.glob fl dir recursive n) -> f <> out.
Proof.
  intros Hnm Hrun fl dir recursive n f Hf ->.
  rewrite batch_output_path_found in Hrun by assumption.
  inversion Hrun; subst.
  apply glob_shape in Hf. destruct Hf as (rel' & nm' & Hm & Heq).
  assert (Hname : name (batch_target input_dir output_dir rel nm) = nm').
  { rewrite Heq. unfold name. rewrite app_assoc. apply last_snoc. }
  rewrite name_batch_target in Hname. rewrite <- Hname in Hm.
  rewrite eml_not_msg in Hm. discriminate.
Qed.

Lemma X13_outputs_are_not_inputs_witness :
  let w := Sample.start Sample.inbox_tree in
  "a.msg" <> "" /\
  batch_output_path ["inbox"] None (["inbox"] ++ [] ++ ["a.msg"]) w =
    (Return ["inbox"; "a.eml"], w) /\
  In ["inbox"; "a.msg"] (FS.glob Posix ["inbox"] false Sample.inbox_tree) /\
  ["inbox"; "a.msg"] <> ["inbox"; "a.eml"].
Proof.
  cbv zeta. split; [discriminate|]. split; [reflexivity|].
  split; [left; reflexivity|].
  apply (X13_outputs_are_not_inputs
           ["inbox"] None [] "a.msg"
           (Sample.start Sample.inbox_tree) (Sample.start Sample.inbox_tree)
           ["inbox"; "a.eml"]
           ltac:(discriminate) eq_refl
           Posix ["inbox"] false Sample.inbox_tree ["inbox"; "a.msg"]).
  left; reflexivity.
Defined.

(** ** Handles, for one conversion *)

(** X14: whatever its outcome, a call of [convert_msg_to_eml] opens and
    closes no handle but that on its own input: afterwards the open
    handles are those of before, or those and one on the input. *)
Theorem X14_at_most_one_handle_left
        (E : extern) (msg_path : path) (output_path : option path)
        (w : world) :
  handles (snd (convert_msg_to_eml E msg_path output_path w)) = handles w \/
  handles (snd (convert_msg_to_eml E msg_path output_path w)) =
  msg_path :: handles w.
Proof.
  pose proof (convert_msg_to_eml_effects E msg_path output_path w) as Heff.
  unfold wp in Heff. destruct Heff as (_ & Hh & _). exact Hh.
Qed.
